(** * A shallow embedding of [jax/_src/prng.py]

    The development follows the Python module section by section:
    the [PRNGImpl] registry value, the key-data check and the key
    array, the vectorisation combinators, the Threefry-2x32 hash in its
    rolled and unrolled forms, and the default (Threefry) and
    RngBitGenerator implementations of [split], [fold_in] and
    [random_bits].

    Conventions.
    - A [uint32] word is a [Z]; every operation that wraps on the
      machine has its reduction modulo [2^32] written out.
    - An array is a dtype, a shape and its elements in row-major
      order.
    - A Python exception is the [Err] outcome of the [result] monad;
      [Unsupported] marks the few inputs on which the embedding does
      not follow the program into code outside this module. *)

From Stdlib Require Import ZArith NArith List Bool Lia String Permutation.
Import ListNotations.

#[local] Set Warnings "-register-all".

Local Open Scope Z_scope.

(** ** Outcomes *)

Inductive exn : Type :=
| TypeError
| ValueError
| AssertionError
| Unsupported.

Inductive result (A : Type) : Type :=
| Ok (a : A)
| Err (e : exn).

Arguments Ok {A} a.
Arguments Err {A} e.

Definition bind {A B : Type} (m : result A) (k : A -> result B) : result B :=
  match m with
  | Ok a => k a
  | Err e => Err e
  end.

Notation "x <- m ;; k" := (bind m (fun x => k))
  (at level 61, m at next level, right associativity).

Fixpoint mapM {A B : Type} (f : A -> result B) (l : list A) : result (list B) :=
  match l with
  | [] => Ok []
  | a :: l' => b <- f a ;; bs <- mapM f l' ;; Ok (b :: bs)
  end.

(** ** Unsigned 32-bit words *)

Module U32.

Definition modulus : Z := 2 ^ 32.

Definition wrap (x : Z) : Z := x mod modulus.

(** [x + y] on [np.uint32]. *)
Definition add (x y : Z) : Z := wrap (x + y).

(** [x ^ y]. *)
Definition xor (x y : Z) : Z := Z.lxor x y.

(** [x | y]. *)
Definition or (x y : Z) : Z := Z.lor x y.

(** [nbits - d] on [np.uint32]. *)
Definition sub (x y : Z) : Z := wrap (x - y).

(** [lax.shift_left]: a shift by the width or more gives zero. *)
Definition shift_left (x d : Z) : Z :=
  if d <? 32 then wrap (Z.shiftl x d) else 0.

(** [lax.shift_right_logical]: a shift by the width or more gives zero. *)
Definition shift_right_logical (x d : Z) : Z :=
  if d <? 32 then Z.shiftr x d else 0.

Definition in_range (x : Z) : Prop := 0 <= x < modulus.

End U32.

(** ** The Threefry-2x32 hash *)

(** [_make_rotate_left(np.uint32)]: [nbits] is the width as a word. *)
Definition rotate_left (x d : Z) : Z :=
  let nbits := 32 in
  U32.or (U32.shift_left x d) (U32.shift_right_logical x (U32.sub nbits d)).

(** The block [x] is a two-element Python list. *)
Definition block : Type := (Z * Z)%type.

(** [apply_round(v, rot)]. *)
Definition apply_round (v : block) (rot : Z) : block :=
  let '(v0, v1) := v in
  let v0 := U32.add v0 v1 in
  let v1 := rotate_left v1 rot in
  let v1 := U32.xor v0 v1 in
  (v0, v1).

(** [rotate_list(xs)]: [xs[1:] + xs[:1]]. *)
Definition rotate_list {A : Type} (xs : list A) : list A :=
  skipn 1 xs ++ firstn 1 xs.

(** The two rotation-constant vectors. *)
Definition rotations : list (list Z) :=
  [[13; 15; 26; 6]; [17; 29; 16; 24]].

(** [for r in rots: x = apply_round(x, r)]. *)
Definition apply_rounds (x : block) (rots : list Z) : block :=
  fold_left apply_round rots x.

(** The loop state of the rolled form: [(x, ks, rotations)]. *)
Definition loop_state : Type := (block * list Z * list (list Z))%type.

(** [rolled_loop_step(i, state)]. *)
Definition rolled_loop_step (i : Z) (state : loop_state) : loop_state :=
  let '(x, ks, rotations) := state in
  let x := apply_rounds x (nth 0 rotations []) in
  let new_x :=
    (U32.add (fst x) (nth 0 ks 0),
     U32.add (U32.add (snd x) (nth 1 ks 0)) (U32.wrap (i + 1))) in
  (new_x, rotate_list ks, rotate_list rotations).

(** [lax.fori_loop(lower, upper, body, init)] for a trip count given as
    a [nat]: the body runs on [lower], [lower + 1], ... in order. *)
Fixpoint fori_loop_from {S : Type} (trips : nat) (i : Z)
  (body : Z -> S -> S) (s : S) : S :=
  match trips with
  | O => s
  | Datatypes.S n => fori_loop_from n (i + 1) body (body i s)
  end.

Definition fori_loop {S : Type} (lower upper : Z)
  (body : Z -> S -> S) (init : S) : S :=
  fori_loop_from (Z.to_nat (upper - lower)) lower body init.

(** The key schedule [ks = [key1, key2, key1 ^ key2 ^ 0x1BD11BDA]]. *)
Definition key_schedule (key1 key2 : Z) : list Z :=
  [key1; key2; U32.xor (U32.xor key1 key2) 0x1BD11BDA].

(** The [else] branch of [_threefry2x32_lowering], statement by
    statement; [x] is the block after the initial key injection. *)
Definition threefry2x32_unrolled (ks : list Z) (x : block) : block :=
  let ks0 := nth 0 ks 0 in
  let ks1 := nth 1 ks 0 in
  let ks2 := nth 2 ks 0 in
  let rot0 := nth 0 rotations [] in
  let rot1 := nth 1 rotations [] in
  let x := apply_rounds x rot0 in
  let x := (U32.add (fst x) ks1, U32.add (U32.add (snd x) ks2) 1) in
  let x := apply_rounds x rot1 in
  let x := (U32.add (fst x) ks2, U32.add (U32.add (snd x) ks0) 2) in
  let x := apply_rounds x rot0 in
  let x := (U32.add (fst x) ks0, U32.add (U32.add (snd x) ks1) 3) in
  let x := apply_rounds x rot1 in
  let x := (U32.add (fst x) ks1, U32.add (U32.add (snd x) ks2) 4) in
  let x := apply_rounds x rot0 in
  let x := (U32.add (fst x) ks2, U32.add (U32.add (snd x) ks0) 5) in
  x.

(** [_threefry2x32_lowering(key1, key2, x1, x2, use_rolled_loops)] on
    scalar words. *)
Definition _threefry2x32_lowering
  (key1 key2 x1 x2 : Z) (use_rolled_loops : bool) : block :=
  let x := (x1, x2) in
  let ks := key_schedule key1 key2 in
  let x := (U32.add (fst x) (nth 0 ks 0), U32.add (snd x) (nth 1 ks 0)) in
  if use_rolled_loops then
    let '(x, _, _) :=
      fori_loop 0 5 rolled_loop_step (x, rotate_list ks, rotations) in
    x
  else
    threefry2x32_unrolled ks x.


(** ** Arrays *)

Inductive dtype : Type :=
| uint8 | uint16 | uint32 | uint64
| int8 | int16 | int32 | int64
| bool_
| float0.

Definition dtype_eqb (a b : dtype) : bool :=
  match a, b with
  | uint8, uint8 | uint16, uint16 | uint32, uint32 | uint64, uint64
  | int8, int8 | int16, int16 | int32, int32 | int64, int64
  | bool_, bool_ | float0, float0 => true
  | _, _ => false
  end.

(** [np.issubdtype(d, np.integer)]. *)
Definition is_integer_dtype (d : dtype) : bool :=
  match d with
  | bool_ | float0 => false
  | _ => true
  end.

(** Width in bits of an integer dtype. *)
Definition dtype_bits (d : dtype) : Z :=
  match d with
  | uint8 | int8 => 8
  | uint16 | int16 => 16
  | uint32 | int32 => 32
  | uint64 | int64 => 64
  | bool_ => 8
  | float0 => 0
  end.

(** An array: element type, shape, and the elements in row-major
    order ([ravel()]).  A scalar has the empty shape and one element. *)
Record ndarray : Type := mk_ndarray {
  arr_dtype : dtype;
  arr_shape : list N;
  arr_data : list Z
}.

(** [prod(shape)]. *)
Definition prod (shape : list N) : N := fold_right N.mul 1%N shape.

Definition arr_ndim (a : ndarray) : nat := List.length a.(arr_shape).

Definition arr_size (a : ndarray) : N := prod a.(arr_shape).

Definition len (l : list Z) : N := N.of_nat (List.length l).

(** The data of a well-formed array fills its shape. *)
Definition well_formed (a : ndarray) : Prop :=
  len a.(arr_data) = arr_size a.

Definition shape_eqb (s t : list N) : bool :=
  if list_eq_dec N.eq_dec s t then true else false.

(** [lax.reshape(a, shape)]: the element count must be kept. *)
Definition reshape (d : dtype) (xs : list Z) (shape : list N) : result ndarray :=
  if (len xs =? prod shape)%N then Ok (mk_ndarray d shape xs)
  else Err TypeError.

(** [jnp.split(xs, 2)]: two equal halves; the length must be even. *)
Definition split2 (xs : list Z) : result (list Z * list Z) :=
  let n := List.length xs in
  if Nat.even n then Ok (firstn (n / 2) xs, skipn (n / 2) xs)
  else Err ValueError.

(** [lax.iota(np.uint32, n)]. *)
Definition iota (n : N) : ndarray :=
  mk_ndarray uint32 [n]
    (map (fun i => U32.wrap (Z.of_nat i)) (seq 0 (N.to_nat n))).

(** ** threefry_2x32 *)

(** [key1, key2 = keypair] for an array: iteration over the leading
    axis.  A key of rank two or more would hand whole rows to the hash
    primitive, whose broadcasting rule is not part of this module. *)
Definition unpack_keypair (keypair : ndarray) : result (Z * Z) :=
  match keypair.(arr_shape) with
  | [] => Err TypeError
  | [_] =>
      match keypair.(arr_data) with
      | [key1; key2] => Ok (key1, key2)
      | _ => Err ValueError
      end
  | _ => Err Unsupported
  end.

(** [threefry2x32_p.bind(key1, key2, x0, x1)] for scalar key words and
    two equally long counter vectors: the lowering applied
    elementwise.  The flag tells which of the two registered lowerings
    runs (the rolled one on CPU, the unrolled one by default). *)
Definition threefry2x32_bind (use_rolled_loops : bool)
  (key1 key2 : Z) (x0 x1 : list Z) : list Z * list Z :=
  split
    (map (fun c => _threefry2x32_lowering key1 key2 (fst c) (snd c)
                     use_rolled_loops)
         (combine x0 x1)).

(** [threefry_2x32(keypair, count)].  Shapes are concrete here, so the
    parity of [count.size] is always known. *)
Definition threefry_2x32 (use_rolled_loops : bool)
  (keypair count : ndarray) : result ndarray :=
  ks <- unpack_keypair keypair ;;
  let '(key1, key2) := ks in
  if negb (dtype_eqb keypair.(arr_dtype) uint32
           && dtype_eqb count.(arr_dtype) uint32)
  then Err TypeError
  else
    let odd_size := N.odd (arr_size count) in
    x <- (if odd_size then split2 (count.(arr_data) ++ [0])
          else split2 count.(arr_data)) ;;
    let y := threefry2x32_bind use_rolled_loops key1 key2 (fst x) (snd x) in
    let out := fst y ++ snd y in
    reshape uint32 (if odd_size then removelast out else out)
      count.(arr_shape).

(** ** The default implementation: seed, split, fold_in, random_bits *)

(** [lax.shift_right_logical(seed, 32)] on an integer of width
    [dtype_bits d]: the shift acts on the two's-complement bit pattern
    of the value, and a shift by the width or more gives zero. *)
Definition shift_right_logical_at (d : dtype) (v s : Z) : Z :=
  if s <? dtype_bits d then Z.shiftr (v mod 2 ^ dtype_bits d) s else 0.

(** [lax.convert_element_type(k, np.uint32)] on an integer value. *)
Definition convert_to_uint32 (v : Z) : Z := U32.wrap v.

(** [threefry_seed(seed)]. *)
Definition threefry_seed (seed : ndarray) : result ndarray :=
  match seed.(arr_shape) with
  | _ :: _ => Err TypeError
  | [] =>
      if negb (is_integer_dtype seed.(arr_dtype)) then Err TypeError
      else
        let v := nth 0 seed.(arr_data) 0 in
        let k1 :=
          convert_to_uint32 (shift_right_logical_at seed.(arr_dtype) v 32) in
        let k2 := convert_to_uint32 (Z.land v 0xFFFFFFFF) in
        Ok (mk_ndarray uint32 [2%N] ([k1] ++ [k2]))
  end.

(** [_threefry_split(key, num)]. *)
Definition _threefry_split (use_rolled_loops : bool)
  (key : ndarray) (num : N) : result ndarray :=
  let counts := iota (num * 2) in
  out <- threefry_2x32 use_rolled_loops key counts ;;
  reshape out.(arr_dtype) out.(arr_data) [num; 2%N].

(** [threefry_split(key, num)]. *)
Definition threefry_split (use_rolled_loops : bool)
  (key : ndarray) (num : N) : result ndarray :=
  _threefry_split use_rolled_loops key num.

(** [jnp.uint32(data)] on an integer scalar. *)
Definition jnp_uint32 (data : ndarray) : ndarray :=
  mk_ndarray uint32 data.(arr_shape) (map convert_to_uint32 data.(arr_data)).

(** [_threefry_fold_in(key, data)]. *)
Definition _threefry_fold_in (use_rolled_loops : bool)
  (key data : ndarray) : result ndarray :=
  count <- threefry_seed data ;;
  threefry_2x32 use_rolled_loops key count.

(** [threefry_fold_in(key, data)]. *)
Definition threefry_fold_in (use_rolled_loops : bool)
  (key data : ndarray) : result ndarray :=
  match data.(arr_shape) with
  | _ :: _ => Err AssertionError
  | [] => _threefry_fold_in use_rolled_loops key (jnp_uint32 data)
  end.

(** [_is_threefry_prng_key(key)]. *)
Definition _is_threefry_prng_key (key : ndarray) : bool :=
  shape_eqb key.(arr_shape) [2%N] && dtype_eqb key.(arr_dtype) uint32.

(** [bit_width in (8, 16, 32, 64)]. *)
Definition valid_bit_width (bit_width : Z) : bool :=
  (bit_width =? 8) || (bit_width =? 16) || (bit_width =? 32)
  || (bit_width =? 64).

(** [UINT_DTYPES[bit_width]]. *)
Definition UINT_DTYPES (bit_width : Z) : dtype :=
  if bit_width =? 8 then uint8
  else if bit_width =? 16 then uint16
  else if bit_width =? 32 then uint32
  else uint64.

(** [jnp.iinfo(np.uint32).max]. *)
Definition uint32_max : N := 4294967295%N.

(** Row [i] of a [(n, 2)] array of keys, as a key of shape [(2,)]. *)
Definition key_row (keys : ndarray) (i : nat) : ndarray :=
  mk_ndarray keys.(arr_dtype) [2%N]
    (firstn 2 (skipn (2 * i) keys.(arr_data))).

(** The flat sequence of 32-bit words behind [random_bits]: one call
    of the hash in counter mode while the counters fit in a word, and
    otherwise [nblocks] full blocks under split keys followed by the
    remainder under the last key. *)
Definition threefry_bits (use_rolled_loops : bool)
  (key : ndarray) (max_count : N) : result (list Z) :=
  let nblocks := (max_count / uint32_max)%N in
  let rem := (max_count mod uint32_max)%N in
  if (nblocks =? 0)%N then
    bits <- threefry_2x32 use_rolled_loops key (iota rem) ;;
    Ok bits.(arr_data)
  else
    keys <- threefry_split use_rolled_loops key (nblocks + 1) ;;
    let subkeys := map (key_row keys) (seq 0 (N.to_nat nblocks)) in
    let last_key := key_row keys (N.to_nat nblocks) in
    blocks <- mapM (fun k => threefry_2x32 use_rolled_loops k
                               (iota uint32_max)) subkeys ;;
    last <- threefry_2x32 use_rolled_loops last_key (iota rem) ;;
    Ok (List.concat (map arr_data blocks) ++ last.(arr_data)).

(** The 64-bit reassembly:
    [bits = [convert(x, uint64) for x in jnp.split(bits, 2)]] and then
    [lax.shift_left(bits[0], 32) | bits[1]] on [uint64]. *)
Definition assemble64 (bits : list Z) : result (list Z) :=
  halves <- split2 bits ;;
  Ok (map (fun hl => Z.lor (Z.shiftl (fst hl) 32 mod 2 ^ 64) (snd hl))
          (combine (fst halves) (snd halves))).

(** The 8- and 16-bit reassembly: every word is shifted right by
    [0, bit_width, 2 * bit_width, ...] and masked; the reshape with
    dimensions [(1, 0)] lists the slices of one word next to each
    other. *)
Definition slice_words (bit_width : Z) (bits : list Z) : list Z :=
  let mask := 2 ^ bit_width - 1 in
  flat_map
    (fun w =>
       map (fun j => Z.land mask
                       (U32.shift_right_logical w (bit_width * Z.of_nat j)))
           (seq 0 (Z.to_nat (32 / bit_width))))
    bits.

(** [threefry_random_bits(key, bit_width, shape)], for a concrete
    shape ([max_count] is a constant dimension). *)
Definition threefry_random_bits (use_rolled_loops : bool)
  (key : ndarray) (bit_width : Z) (shape : list N) : result ndarray :=
  if negb (_is_threefry_prng_key key) then Err TypeError
  else if negb (valid_bit_width bit_width) then Err TypeError
  else
    let size := prod shape in
    let max_count := (Z.to_N bit_width * size / 32)%N in
    let r := (Z.to_N bit_width * size mod 32)%N in
    let max_count := if (0 <? r)%N then (max_count + 1)%N else max_count in
    bits <- threefry_bits use_rolled_loops key max_count ;;
    let dtype := UINT_DTYPES bit_width in
    bits <- (if bit_width =? 64 then assemble64 bits
             else if (bit_width =? 8) || (bit_width =? 16) then
               Ok (firstn (N.to_nat size) (slice_words bit_width bits))
             else Ok bits) ;;
    reshape dtype bits shape.

(** ** The RngBitGenerator implementation *)

Section Rbg.

(** [lax.rng_bit_generator(key, shape, dtype)], a primitive of the
    array library: the pair of the new key and the generated bits. *)
Variable rng_bit_generator : ndarray -> list N -> dtype -> ndarray * ndarray.

(** [_rbg_random_bits(key, bit_width, shape)].  The guard reads
    [not key.shape == (4,) and key.dtype == uint32], that is
    [(not ...) and ...]. *)
Definition _rbg_random_bits (key : ndarray) (bit_width : Z)
  (shape : list N) : result ndarray :=
  if negb (shape_eqb key.(arr_shape) [4%N])
     && dtype_eqb key.(arr_dtype) uint32
  then Err TypeError
  else if negb (valid_bit_width bit_width) then Err TypeError
  else Ok (snd (rng_bit_generator key shape (UINT_DTYPES bit_width))).

End Rbg.

(** ** The implementation registry *)

(** A function object; two handles are the same object when their
    identities agree (Python compares functions by identity). *)
Record Callable : Type := mk_callable { fn_id : positive }.

Definition callable_eqb (f g : Callable) : bool :=
  Pos.eqb f.(fn_id) g.(fn_id).

Module PRNGImpl.

(** [class PRNGImpl(NamedTuple)]: six fields in declaration order. *)
Record t : Type := make {
  key_shape : list N;
  seed : Callable;
  split : Callable;
  random_bits : Callable;
  fold_in : Callable;
  tag : string
}.

(** [a == b].  The class defines [__hash__] and [__str__] only, so
    [==] is the one inherited from [tuple]: the fields are compared
    one by one. *)
Definition eqb (a b : t) : bool :=
  shape_eqb a.(key_shape) b.(key_shape)
  && callable_eqb a.(seed) b.(seed)
  && callable_eqb a.(split) b.(split)
  && callable_eqb a.(random_bits) b.(random_bits)
  && callable_eqb a.(fold_in) b.(fold_in)
  && String.eqb a.(tag) b.(tag).

(** Equality by tag alone, the reading of the specification. *)
Definition tag_eqb (a b : t) : bool := String.eqb a.(tag) b.(tag).

(** [__hash__]: [hash(self.tag)], for the interpreter's hash of
    strings. *)
Definition hash (str_hash : string -> Z) (a : t) : Z := str_hash a.(tag).

(** [__str__]. *)
Definition str (a : t) : string := a.(tag).

End PRNGImpl.

(** The three registered implementations; the handles number the
    module's functions. *)
Definition fn_threefry_seed : Callable := mk_callable 1.
Definition fn_threefry_split : Callable := mk_callable 2.
Definition fn_threefry_random_bits : Callable := mk_callable 3.
Definition fn_threefry_fold_in : Callable := mk_callable 4.
Definition fn_rbg_seed : Callable := mk_callable 5.
Definition fn_rbg_split : Callable := mk_callable 6.
Definition fn_rbg_random_bits : Callable := mk_callable 7.
Definition fn_rbg_fold_in : Callable := mk_callable 8.
Definition fn_unsafe_rbg_split : Callable := mk_callable 9.
Definition fn_unsafe_rbg_fold_in : Callable := mk_callable 10.

Definition threefry_prng_impl : PRNGImpl.t :=
  PRNGImpl.make [2%N] fn_threefry_seed fn_threefry_split
    fn_threefry_random_bits fn_threefry_fold_in "fry".

Definition rbg_prng_impl : PRNGImpl.t :=
  PRNGImpl.make [4%N] fn_rbg_seed fn_rbg_split
    fn_rbg_random_bits fn_rbg_fold_in "rbg".

Definition unsafe_rbg_prng_impl : PRNGImpl.t :=
  PRNGImpl.make [4%N] fn_rbg_seed fn_unsafe_rbg_split
    fn_rbg_random_bits fn_unsafe_rbg_fold_in "urbg".

(** ** Key arrays, wrap and unwrap *)

(** [xs[-n:]]: for [n = 0] the start index is [-0 = 0] and the slice
    is the whole list; an [n] beyond the length is clamped. *)
Definition slice_last {A : Type} (n : nat) (xs : list A) : list A :=
  match n with
  | O => xs
  | _ => skipn (List.length xs - n) xs
  end.

(** [xs[:-n]]: for [n = 0] the stop index is [0] and the slice is
    empty. *)
Definition slice_drop_last {A : Type} (n : nat) (xs : list A) : list A :=
  match n with
  | O => []
  | _ => firstn (List.length xs - n) xs
  end.

(** [_check_prng_key_data(impl, key_data)].  An [ndarray] always has
    the three attributes, so the first test never fires. *)
Definition _check_prng_key_data (impl : PRNGImpl.t) (key_data : ndarray)
  : result unit :=
  let ndim := List.length impl.(PRNGImpl.key_shape) in
  if (arr_ndim key_data <? 1)%nat then Err TypeError
  else if negb (shape_eqb (slice_last ndim key_data.(arr_shape))
                          impl.(PRNGImpl.key_shape))
  then Err TypeError
  else if negb (dtype_eqb key_data.(arr_dtype) uint32
                || dtype_eqb key_data.(arr_dtype) float0)
  then Err TypeError
  else Ok tt.

(** [class PRNGKeyArray]: the implementation and the base array. *)
Record PRNGKeyArray : Type := mk_key_array {
  impl : PRNGImpl.t;
  _base_array : ndarray
}.

(** [PRNGKeyArray.__init__(impl, key_data)] on a concrete array. *)
Definition PRNGKeyArray_init (impl : PRNGImpl.t) (key_data : ndarray)
  : result PRNGKeyArray :=
  _ <- _check_prng_key_data impl key_data ;;
  Ok (mk_key_array impl key_data).

(** [unsafe_raw_array()]. *)
Definition unsafe_raw_array (keys : PRNGKeyArray) : ndarray :=
  keys.(_base_array).

(** [base_arr_shape_to_keys_shape(impl, base_arr_shape)]. *)
Definition base_arr_shape_to_keys_shape (impl : PRNGImpl.t)
  (base_arr_shape : list N) : list N :=
  let base_ndim := List.length impl.(PRNGImpl.key_shape) in
  slice_drop_last base_ndim base_arr_shape.

(** The [shape] property of a key array. *)
Definition keys_shape (keys : PRNGKeyArray) : list N :=
  base_arr_shape_to_keys_shape keys.(impl) keys.(_base_array).(arr_shape).

(** [random_wrap_impl(base_arr, impl)]. *)
Definition random_wrap_impl (base_arr : ndarray) (impl : PRNGImpl.t)
  : result PRNGKeyArray :=
  PRNGKeyArray_init impl base_arr.

(** [random_wrap(base_arr, impl)], evaluated eagerly: the check, then
    the primitive's implementation. *)
Definition random_wrap (base_arr : ndarray) (impl : PRNGImpl.t)
  : result PRNGKeyArray :=
  _ <- _check_prng_key_data impl base_arr ;;
  random_wrap_impl base_arr impl.

(** [random_unwrap_impl(keys)]. *)
Definition random_unwrap_impl (keys : PRNGKeyArray) : ndarray :=
  unsafe_raw_array keys.

(** [random_unwrap(keys)]: the [isinstance] assertion holds by
    typing. *)
Definition random_unwrap (keys : PRNGKeyArray) : ndarray :=
  random_unwrap_impl keys.

(** [random_split_abstract_eval] followed by
    [keys_aval_to_base_arr_aval]: the shape of the base array of the
    keys that [random_split] returns. *)
Definition random_split_base_shape (impl : PRNGImpl.t)
  (keys_shape : list N) (count : N) : list N :=
  (keys_shape ++ [count]) ++ impl.(PRNGImpl.key_shape).

(** ** The vectorisation layer *)

(** A nested array: a leaf is one element of the batch (a key, a
    message), a node is one axis. *)
Inductive nd : Type :=
| Leaf (a : list Z)
| Node (l : list nd).

(** A function of two arrays, such as [impl.fold_in]. *)
Definition binary : Type := nd -> nd -> result nd.

(** [jax.vmap(f)] of a function of one array. *)
Definition vmap1 (f : nd -> result nd) (x : nd) : result nd :=
  match x with
  | Node l => l' <- mapM f l ;; Ok (Node l')
  | Leaf _ => Err ValueError
  end.

(** [jax.vmap(f, out_axes=0)] of a function of two arrays: both are
    mapped along their leading axis, whose sizes must agree. *)
Definition vmap2 (f : binary) (x y : nd) : result nd :=
  match x, y with
  | Node lx, Node ly =>
      if (List.length lx =? List.length ly)%nat then
        l' <- mapM (fun p => f (fst p) (snd p)) (combine lx ly) ;;
        Ok (Node l')
      else Err ValueError
  | _, _ => Err ValueError
  end.

(** [jax.vmap(f, in_axes=(None, 0), out_axes=0)]. *)
Definition vmap_none_0 (f : binary) (x y : nd) : result nd :=
  vmap1 (fun y' => f x y') y.

(** [jax.vmap(f, in_axes=(0, None), out_axes=0)]. *)
Definition vmap_0_none (f : binary) (x y : nd) : result nd :=
  vmap1 (fun x' => f x' y) x.

(** [jnp.squeeze(x, axis=0)]: the leading axis must have size one. *)
Definition squeeze0 (x : nd) : result nd :=
  match x with
  | Node [x'] => Ok x'
  | _ => Err ValueError
  end.

(** [iterated_vmap_unary(n, f)]. *)
Fixpoint iterated_vmap_unary (n : nat) (f : nd -> result nd)
  : nd -> result nd :=
  match n with
  | O => f
  | S n' => iterated_vmap_unary n' (vmap1 f)
  end.

(** [squeeze_vmap(f, left)]. *)
Definition squeeze_vmap (f : binary) (left : bool) : binary :=
  fun x y =>
    if left then
      x <- squeeze0 x ;; vmap_none_0 f x y
    else
      y <- squeeze0 y ;; vmap_0_none f x y.

(** The loop of [iterated_vmap_binary_bcast] over the axis sizes it is
    given, in the order given. *)
Fixpoint bcast_axes (axes : list (N * N)) (f : binary) : result binary :=
  match axes with
  | [] => Ok f
  | (sz1, sz2) :: axes' =>
      if (sz1 =? sz2)%N then bcast_axes axes' (vmap2 f)
      else if (sz1 =? 1)%N || (sz2 =? 1)%N
      then bcast_axes axes' (squeeze_vmap f (sz1 =? 1)%N)
      else Err AssertionError
  end.

(** [iterated_vmap_binary_bcast(shape1, shape2, f)]. *)
Definition iterated_vmap_binary_bcast (shape1 shape2 : list N) (f : binary)
  : result binary :=
  let ndim1 := List.length shape1 in
  let ndim2 := List.length shape2 in
  if (ndim1 =? 0)%nat && (ndim2 =? 0)%nat then Ok f
  else if (ndim1 =? 0)%nat || (ndim2 =? 0)%nat then
    if (ndim1 =? 0)%nat then
      Ok (fun x y => iterated_vmap_unary ndim2 (fun y => f x y) y)
    else
      Ok (fun x y => iterated_vmap_unary ndim1 (fun x => f x y) x)
  else if negb (List.length shape1 =? List.length shape2)%nat
  then Err AssertionError
  else bcast_axes (rev (combine shape1 shape2)) f.

(** Element-wise application at depth [n]: what [n] nested loops over
    the leading axes compute. *)
Fixpoint map_at_depth (n : nat) (f : nd -> result nd) (x : nd) : result nd :=
  match n with
  | O => f x
  | S n' =>
      match x with
      | Node l => l' <- mapM (map_at_depth n' f) l ;; Ok (Node l')
      | Leaf _ => Err ValueError
      end
  end.

(** ** The round structure in the words of the specification *)

(** Rounds [r], [r + 1], ... ([1]-based), [n] of them: round [r] mixes
    with [rotations[(r - 1) mod 2]], then adds the schedule word at
    position [next] to [x0] and the following schedule word plus [r]
    to [x1]; the position advances by one, cyclically. *)
Fixpoint scheduled_rounds (n : nat) (r next : nat) (ks : list Z)
  (x : block) : block :=
  match n with
  | O => x
  | S n' =>
      let x := apply_rounds x (nth ((r - 1) mod 2) rotations []) in
      let x := (U32.add (fst x) (nth (next mod 3) ks 0),
                U32.add (U32.add (snd x) (nth ((next + 1) mod 3) ks 0))
                        (Z.of_nat r)) in
      scheduled_rounds n' (r + 1) (next + 1) ks x
  end.

(** The whole hash with the schedule position of the first post-round
    injection as a parameter. *)
Definition threefry2x32_scheduled (first : nat)
  (key1 key2 x1 x2 : Z) : block :=
  let ks := key_schedule key1 key2 in
  let x := (U32.add x1 (nth 0 ks 0), U32.add x2 (nth 1 ks 0)) in
  scheduled_rounds 5 1 first ks x.

(** ** The hash on a flat counter vector *)

(** What [threefry_2x32] computes on the flattened counters: pad to an
    even length with one zero word, hash the first half against the
    second, concatenate the two output halves and drop the output of
    the padding. *)
Definition threefry_2x32_flat (use_rolled_loops : bool)
  (key1 key2 : Z) (xs : list Z) : list Z :=
  let odd_size := Nat.odd (List.length xs) in
  let padded := if odd_size then xs ++ [0] else xs in
  let h := (List.length padded / 2)%nat in
  let y := threefry2x32_bind use_rolled_loops key1 key2
             (firstn h padded) (skipn h padded) in
  let out := fst y ++ snd y in
  if odd_size then removelast out else out.

(** A raw Threefry key: two words of type [uint32] in an array of
    shape [(2,)]. *)
Definition raw_threefry_key (key : ndarray) (key1 key2 : Z) : Prop :=
  key.(arr_shape) = [2%N] /\ key.(arr_dtype) = uint32
  /\ key.(arr_data) = [key1; key2].

(** ** The RngBitGenerator implementations: seed, split, fold_in *)

(** [jnp.concatenate([a, b])] of two arrays of rank one and one
    dtype. *)
Definition concatenate_1d (a b : ndarray) : result ndarray :=
  match a.(arr_shape), b.(arr_shape) with
  | [n], [m] =>
      Ok (mk_ndarray a.(arr_dtype) [(n + m)%N]
            (a.(arr_data) ++ b.(arr_data)))
  | _, _ => Err Unsupported
  end.

(** [_rbg_seed(seed)]. *)
Definition _rbg_seed (seed : ndarray) : result ndarray :=
  match seed.(arr_shape) with
  | _ :: _ => Err AssertionError
  | [] =>
      halfkey <- threefry_seed seed ;;
      concatenate_1d halfkey halfkey
  end.

(** [_rbg_split(key, num)]: the key is reshaped to two rows, each row
    is split by [_threefry_split], the two [(num, 2)] results are
    stacked along axis one ([out_axes = 1]) and the [(num, 2, 2)]
    array is reshaped to [(num, 4)]. *)
Definition _rbg_split (use_rolled_loops : bool)
  (key : ndarray) (num : N) : result ndarray :=
  halves <- reshape key.(arr_dtype) key.(arr_data) [2%N; 2%N] ;;
  s0 <- _threefry_split use_rolled_loops (key_row halves 0) num ;;
  s1 <- _threefry_split use_rolled_loops (key_row halves 1) num ;;
  reshape s0.(arr_dtype)
    (flat_map (fun i => (key_row s0 i).(arr_data) ++ (key_row s1 i).(arr_data))
              (seq 0 (N.to_nat num)))
    [num; 4%N].

(** [_rbg_fold_in(key, data)]: [_threefry_fold_in] on each row, with
    the data unmapped, stacked along axis zero and reshaped to
    [(4,)]. *)
Definition _rbg_fold_in (use_rolled_loops : bool)
  (key data : ndarray) : result ndarray :=
  match data.(arr_shape) with
  | _ :: _ => Err AssertionError
  | [] =>
      halves <- reshape key.(arr_dtype) key.(arr_data) [2%N; 2%N] ;;
      f0 <- _threefry_fold_in use_rolled_loops (key_row halves 0) data ;;
      f1 <- _threefry_fold_in use_rolled_loops (key_row halves 1) data ;;
      reshape f0.(arr_dtype) (f0.(arr_data) ++ f1.(arr_data)) [4%N]
  end.

(** [a[::10]]: every tenth row along the leading axis.  A scalar
    cannot be sliced; the generator returns none. *)
Definition every_tenth_row (a : ndarray) : result ndarray :=
  match a.(arr_shape) with
  | [] => Err Unsupported
  | n0 :: rest =>
      let row := N.to_nat (prod rest) in
      let n := ((n0 + 9) / 10)%N in
      Ok (mk_ndarray a.(arr_dtype) (n :: rest)
            (flat_map (fun i => firstn row (skipn (10 * i * row) a.(arr_data)))
                      (seq 0 (N.to_nat n))))
  end.

(** [a[-1]]: the last row along the leading axis. *)
Definition last_row (a : ndarray) : result ndarray :=
  match a.(arr_shape) with
  | [] => Err Unsupported
  | n0 :: rest =>
      if (n0 =? 0)%N then Err Unsupported
      else
        let row := N.to_nat (prod rest) in
        Ok (mk_ndarray a.(arr_dtype) rest
              (firstn row (skipn ((N.to_nat n0 - 1) * row) a.(arr_data))))
  end.

(** [a ^ b] for two arrays of one shape and one dtype; broadcasting
    and type promotion are not followed. *)
Definition bitwise_xor (a b : ndarray) : result ndarray :=
  if shape_eqb a.(arr_shape) b.(arr_shape)
     && dtype_eqb a.(arr_dtype) b.(arr_dtype)
  then Ok (mk_ndarray a.(arr_dtype) a.(arr_shape)
             (map (fun p => Z.lxor (fst p) (snd p))
                  (combine a.(arr_data) b.(arr_data))))
  else Err Unsupported.

Section UnsafeRbg.

Variable rng_bit_generator : ndarray -> list N -> dtype -> ndarray * ndarray.

(** [_unsafe_rbg_split(key, num)]. *)
Definition _unsafe_rbg_split (key : ndarray) (num : N) : result ndarray :=
  let keys := snd (rng_bit_generator key [(10 * num)%N; 4%N] uint32) in
  every_tenth_row keys.

(** [_unsafe_rbg_fold_in(key, data)]. *)
Definition _unsafe_rbg_fold_in (key data : ndarray) : result ndarray :=
  match data.(arr_shape) with
  | _ :: _ => Err AssertionError
  | [] =>
      seed_key <- _rbg_seed data ;;
      let random_bits :=
        snd (rng_bit_generator seed_key [10%N; 4%N] uint32) in
      last <- last_row random_bits ;;
      bitwise_xor key last
  end.

End UnsafeRbg.

(** ** Key arrays: size and iteration *)

(** The [ndim] property of a key array. *)
Definition keys_ndim (keys : PRNGKeyArray) : nat :=
  List.length (keys_shape keys).

(** [_is_scalar()]. *)
Definition _is_scalar (keys : PRNGKeyArray) : bool :=
  let base_ndim := List.length keys.(impl).(PRNGImpl.key_shape) in
  (arr_ndim keys.(_base_array) =? base_ndim)%nat.

(** [len(a)] of an array: the size of the leading axis. *)
Definition ndarray_len (a : ndarray) : result N :=
  match a.(arr_shape) with
  | [] => Err TypeError
  | n0 :: _ => Ok n0
  end.

(** [iter(a)] of an array: its rows along the leading axis. *)
Definition ndarray_iter (a : ndarray) : result (list ndarray) :=
  match a.(arr_shape) with
  | [] => Err TypeError
  | n0 :: rest =>
      let row := N.to_nat (prod rest) in
      Ok (map (fun i => mk_ndarray a.(arr_dtype) rest
                          (firstn row (skipn (i * row) a.(arr_data))))
              (seq 0 (N.to_nat n0)))
  end.

(** [__len__]. *)
Definition PRNGKeyArray_len (keys : PRNGKeyArray) : result N :=
  if _is_scalar keys then Err TypeError
  else ndarray_len keys.(_base_array).

(** [__iter__], with the generator run to its end. *)
Definition PRNGKeyArray_iter (keys : PRNGKeyArray)
  : result (list PRNGKeyArray) :=
  if _is_scalar keys then Err TypeError
  else
    rows <- ndarray_iter keys.(_base_array) ;;
    mapM (PRNGKeyArray_init keys.(impl)) rows.

(** [keys_aval_to_base_arr_aval]: the shape of the base array of keys
    of a given shape. *)
Definition keys_shape_to_base_arr_shape (p : PRNGImpl.t)
  (keys_shape : list N) : list N :=
  keys_shape ++ p.(PRNGImpl.key_shape).

(** The permutation that [KeyTy.transpose_mlir] hands to the
    transpose of the base array; [ndim_out] is the rank of the keys. *)
Definition transpose_mlir_perm (key_shape : list N) (ndim_out : nat)
  (permutation : list nat) : list nat :=
  let trailing_dims :=
    map (fun i => (ndim_out + i)%nat) (seq 0 (List.length key_shape)) in
  permutation ++ trailing_dims.

(** ** Reference semantics of the vectorisation layer *)

(** The sub-array at a multi-index. *)
Fixpoint nd_index (idx : list nat) (x : nd) : option nd :=
  match idx with
  | [] => Some x
  | i :: idx' =>
      match x with
      | Node l =>
          match nth_error l i with
          | Some x' => nd_index idx' x'
          | None => None
          end
      | Leaf _ => None
      end
  end.

(** The index into the left operand of a broadcast: along an axis
    where the two sizes differ and the left one is one, every index
    reads position zero. *)
Fixpoint clip_left (axes : list (N * N)) (idx : list nat) : list nat :=
  match axes, idx with
  | (sz1, sz2) :: axes', i :: idx' =>
      (if negb (sz1 =? sz2)%N && (sz1 =? 1)%N then 0%nat else i)
      :: clip_left axes' idx'
  | _, _ => []
  end.

(** The index into the right operand: position zero along an axis
    where the sizes differ and the left one is not one. *)
Fixpoint clip_right (axes : list (N * N)) (idx : list nat) : list nat :=
  match axes, idx with
  | (sz1, sz2) :: axes', i :: idx' =>
      (if negb (sz1 =? sz2)%N && negb (sz1 =? 1)%N then 0%nat else i)
      :: clip_right axes' idx'
  | _, _ => []
  end.

(** Broadcasting with the leading axis handled first, on axes that
    are compatible. *)
Fixpoint bcast_outer_first (axes : list (N * N)) (f : binary) : binary :=
  match axes with
  | [] => f
  | (sz1, sz2) :: axes' =>
      if (sz1 =? sz2)%N then vmap2 (bcast_outer_first axes' f)
      else squeeze_vmap (bcast_outer_first axes' f) (sz1 =? 1)%N
  end.

(** The axis pairs on which broadcasting is defined. *)
Definition compatible (axis : N * N) : Prop :=
  fst axis = snd axis \/ fst axis = 1%N \/ snd axis = 1%N.

(** ** Bit rotation, as a reference *)

(** Bit [i] of the rotation of a 32-bit word by [d] to the left is bit
    [(i - d) mod 32] of the word. *)
Definition rotated_bit (x d i : Z) : bool := Z.testbit x ((i - d) mod 32).

(** A block of two 32-bit words. *)
Definition block_in_range (x : block) : Prop :=
  U32.in_range (fst x) /\ U32.in_range (snd x).

(** * Properties *)

(** ** The hash core *)

(** Known-answer vectors of the reference Threefry-2x32, on both
    evaluation strategies. *)
Example threefry_kat_zero :
  _threefry2x32_lowering 0 0 0 0 false = (0x6b200159, 0x99ba4efe).
Proof. vm_compute. reflexivity. Qed.

Example threefry_kat_ones :
  _threefry2x32_lowering 0xffffffff 0xffffffff 0xffffffff 0xffffffff true
  = (0x1cb996fc, 0xbb002be7).
Proof. vm_compute. reflexivity. Qed.

Example threefry_kat_pi :
  _threefry2x32_lowering 0x13198a2e 0x03707344 0x243f6a88 0x85a308d3 false
  = (0xc4923a9c, 0x483df7a0).
Proof. vm_compute. reflexivity. Qed.

(** One trip of the rolled loop, on an explicit state. *)
Lemma rolled_loop_step_eq (i : Z) (x : block) (ks : list Z)
  (rots : list (list Z)) :
  rolled_loop_step i (x, ks, rots) =
  (let y := apply_rounds x (nth 0 rots []) in
   (U32.add (fst y) (nth 0 ks 0),
    U32.add (U32.add (snd y) (nth 1 ks 0)) (U32.wrap (i + 1))),
   rotate_list ks, rotate_list rots).
Proof. reflexivity. Qed.

(** The rolled loop on an abstract block equals the unrolled rounds. *)
Lemma rolled_rounds_unrolled (k0 k1 k2 : Z) (x : block) :
  fst (fst (fori_loop 0 5 rolled_loop_step
              (x, rotate_list [k0; k1; k2], rotations))) =
  threefry2x32_unrolled [k0; k1; k2] x.
Proof.
  unfold fori_loop.
  change (Z.to_nat (5 - 0)) with 5%nat.
  cbn [fori_loop_from].
  rewrite !rolled_loop_step_eq.
  reflexivity.
Qed.

(** C3: the rolled (loop-based) and the fully unrolled evaluation of
    the Threefry-2x32 hash give the same output pair on every
    quadruple of input words. *)
Theorem threefry2x32_rolled_eq_unrolled (key1 key2 x1 x2 : Z) :
  _threefry2x32_lowering key1 key2 x1 x2 true =
  _threefry2x32_lowering key1 key2 x1 x2 false.
Proof.
  unfold _threefry2x32_lowering, key_schedule.
  rewrite <- rolled_rounds_unrolled.
  destruct (fori_loop _ _ _ _) as [[x ks] rots].
  reflexivity.
Qed.

(** The unrolled rounds follow the schedule that starts at [ks1]. *)
Lemma unrolled_scheduled_from_ks1 (k0 k1 k2 : Z) (x : block) :
  threefry2x32_unrolled [k0; k1; k2] x =
  scheduled_rounds 5 1 1 [k0; k1; k2] x.
Proof. reflexivity. Qed.

(** C1, as the code has it: the initial injection uses [ks0] and
    [ks1]; after round [r = 1..5] the word added to [x0] follows the
    order [ks1, ks2, ks0, ks1, ks2], and [x1] receives the following
    schedule word plus the round number [r].  Both evaluation
    strategies follow this schedule. *)
Theorem threefry2x32_injection_schedule (key1 key2 x1 x2 : Z) :
  _threefry2x32_lowering key1 key2 x1 x2 false =
  threefry2x32_scheduled 1 key1 key2 x1 x2
  /\ _threefry2x32_lowering key1 key2 x1 x2 true =
     threefry2x32_scheduled 1 key1 key2 x1 x2.
Proof.
  assert (H : _threefry2x32_lowering key1 key2 x1 x2 false =
              threefry2x32_scheduled 1 key1 key2 x1 x2).
  { unfold _threefry2x32_lowering, threefry2x32_scheduled, key_schedule.
    cbn [fst snd]. apply unrolled_scheduled_from_ks1. }
  split; [ exact H | ].
  rewrite <- H.
  unfold _threefry2x32_lowering, key_schedule.
  rewrite <- rolled_rounds_unrolled.
  destruct (fori_loop _ _ _ _) as [[x ks] rots].
  reflexivity.
Qed.

(** C1, as stated, fails: a schedule whose post-round injections start
    from [ks0] gives another hash already on the all-zero input. *)
Lemma threefry2x32_schedule_not_from_ks0 :
  _threefry2x32_lowering 0 0 0 0 false <> threefry2x32_scheduled 0 0 0 0 0.
Proof. vm_compute. discriminate. Qed.

(** ** threefry_2x32 on arrays *)

Lemma N_odd_of_nat (n : nat) : N.odd (N.of_nat n) = Nat.odd n.
Proof.
  destruct (Nat.Even_or_Odd n) as [[k ->] | [k ->]].
  - rewrite Nat2N.inj_mul, N.odd_even, Nat.odd_even. reflexivity.
  - rewrite Nat2N.inj_add, Nat2N.inj_mul.
    change (N.of_nat 2) with 2%N. change (N.of_nat 1) with 1%N.
    rewrite N.odd_odd, Nat.odd_odd. reflexivity.
Qed.

Lemma split2_even (xs : list Z) :
  Nat.even (List.length xs) = true ->
  split2 xs =
  Ok (firstn (List.length xs / 2) xs, skipn (List.length xs / 2) xs).
Proof. unfold split2. intros ->. reflexivity. Qed.

Lemma even_length_padded (xs : list Z) :
  Nat.even
    (List.length (if Nat.odd (List.length xs) then xs ++ [0] else xs)) = true.
Proof.
  destruct (Nat.odd (List.length xs)) eqn:E.
  - rewrite length_app. cbn [List.length].
    rewrite Nat.add_1_r, Nat.even_succ. exact E.
  - unfold Nat.odd in E. apply negb_false_iff. exact E.
Qed.

Lemma bind_length_fst (ur : bool) (k1 k2 : Z) (x0 x1 : list Z) :
  List.length (fst (threefry2x32_bind ur k1 k2 x0 x1)) =
  Nat.min (List.length x0) (List.length x1).
Proof.
  unfold threefry2x32_bind.
  rewrite length_fst_split, length_map, length_combine. reflexivity.
Qed.

Lemma bind_length_snd (ur : bool) (k1 k2 : Z) (x0 x1 : list Z) :
  List.length (snd (threefry2x32_bind ur k1 k2 x0 x1)) =
  Nat.min (List.length x0) (List.length x1).
Proof.
  unfold threefry2x32_bind.
  rewrite length_snd_split, length_map, length_combine. reflexivity.
Qed.

Lemma even_half_double (n : nat) :
  Nat.even n = true -> (n / 2 + n / 2 = n)%nat.
Proof.
  intros E. apply Nat.even_spec in E. destruct E as [k ->].
  rewrite Nat.mul_comm, Nat.div_mul by discriminate. lia.
Qed.

Lemma length_removelast_nat {A : Type} (l : list A) :
  List.length (removelast l) = Nat.pred (List.length l).
Proof.
  rewrite removelast_firstn_len, length_firstn. lia.
Qed.

(** The flat hash keeps the number of words. *)
Lemma length_threefry_2x32_flat (ur : bool) (k1 k2 : Z) (xs : list Z) :
  List.length (threefry_2x32_flat ur k1 k2 xs) = List.length xs.
Proof.
  unfold threefry_2x32_flat.
  pose proof (even_length_padded xs) as E.
  set (padded := if Nat.odd (List.length xs) then xs ++ [0] else xs) in *.
  pose proof (even_half_double _ E) as H.
  assert (L : List.length
            (fst (threefry2x32_bind ur k1 k2
                    (firstn (List.length padded / 2) padded)
                    (skipn (List.length padded / 2) padded)) ++
             snd (threefry2x32_bind ur k1 k2
                    (firstn (List.length padded / 2) padded)
                    (skipn (List.length padded / 2) padded)))
            = List.length padded).
  { rewrite length_app, bind_length_fst, bind_length_snd.
    rewrite length_firstn, length_skipn. lia. }
  subst padded.
  destruct (Nat.odd (List.length xs)).
  - rewrite length_removelast_nat, L, length_app. cbn [List.length]. lia.
  - exact L.
Qed.

Lemma wrap_in_range (x : Z) : U32.in_range (U32.wrap x).
Proof.
  unfold U32.in_range, U32.wrap, U32.modulus.
  apply Z.mod_pos_bound. reflexivity.
Qed.

Lemma lowering_rolled_unrolled (k1 k2 a b : Z) (ur : bool) :
  _threefry2x32_lowering k1 k2 a b ur = _threefry2x32_lowering k1 k2 a b false.
Proof.
  destruct ur; [ | reflexivity ].
  unfold _threefry2x32_lowering, key_schedule.
  rewrite <- rolled_rounds_unrolled.
  destruct (fori_loop _ _ _ _) as [[x ks] rots].
  reflexivity.
Qed.

(** Both output words of the hash are 32-bit words, whatever the
    inputs. *)
Lemma lowering_in_range (k1 k2 a b : Z) (ur : bool) :
  U32.in_range (fst (_threefry2x32_lowering k1 k2 a b ur)) /\
  U32.in_range (snd (_threefry2x32_lowering k1 k2 a b ur)).
Proof.
  rewrite lowering_rolled_unrolled.
  unfold _threefry2x32_lowering, threefry2x32_unrolled.
  cbn [fst snd]. unfold U32.add at 1 3.
  split; apply wrap_in_range.
Qed.

Lemma Forall_fst_split {A B : Type} (P : A -> Prop) (l : list (A * B)) :
  Forall (fun p => P (fst p)) l -> Forall P (fst (List.split l)).
Proof.
  induction 1 as [ | [a b] l Ha Hl IH ]; cbn.
  - constructor.
  - destruct (List.split l). cbn in *. constructor; assumption.
Qed.

Lemma Forall_snd_split {A B : Type} (P : B -> Prop) (l : list (A * B)) :
  Forall (fun p => P (snd p)) l -> Forall P (snd (List.split l)).
Proof.
  induction 1 as [ | [a b] l Ha Hl IH ]; cbn.
  - constructor.
  - destruct (List.split l). cbn in *. constructor; assumption.
Qed.

Lemma Forall_removelast {A : Type} (P : A -> Prop) (l : list A) :
  Forall P l -> Forall P (removelast l).
Proof.
  induction 1 as [ | a l Ha Hl IH ]; cbn.
  - constructor.
  - destruct l; [ constructor | constructor; assumption ].
Qed.

Lemma bind_in_range (ur : bool) (k1 k2 : Z) (x0 x1 : list Z) :
  Forall U32.in_range (fst (threefry2x32_bind ur k1 k2 x0 x1)) /\
  Forall U32.in_range (snd (threefry2x32_bind ur k1 k2 x0 x1)).
Proof.
  unfold threefry2x32_bind. split.
  - apply Forall_fst_split, Forall_map, Forall_forall.
    intros c _. apply lowering_in_range.
  - apply Forall_snd_split, Forall_map, Forall_forall.
    intros c _. apply lowering_in_range.
Qed.

(** Every word of the flat hash is a 32-bit word. *)
Lemma threefry_2x32_flat_in_range (ur : bool) (k1 k2 : Z) (xs : list Z) :
  Forall U32.in_range (threefry_2x32_flat ur k1 k2 xs).
Proof.
  unfold threefry_2x32_flat.
  set (y := threefry2x32_bind _ _ _ _ _).
  assert (H : Forall U32.in_range (fst y ++ snd y)).
  { apply Forall_app. subst y. apply bind_in_range. }
  destruct (Nat.odd _); [ apply Forall_removelast | ]; exact H.
Qed.

Lemma len_eq (xs : list Z) (n : N) :
  len xs = n -> List.length xs = N.to_nat n.
Proof. unfold len. intros <-. rewrite Nat2N.id. reflexivity. Qed.

(** [threefry_2x32] on a raw key and well-formed [uint32] counters:
    it returns, and the result is the flat hash in the shape of the
    counters. *)
Lemma threefry_2x32_eq (ur : bool) (key count : ndarray) (k1 k2 : Z) :
  raw_threefry_key key k1 k2 ->
  count.(arr_dtype) = uint32 ->
  well_formed count ->
  threefry_2x32 ur key count =
  Ok (mk_ndarray uint32 count.(arr_shape)
        (threefry_2x32_flat ur k1 k2 count.(arr_data))).
Proof.
  intros (Hs & Hd & Hk) Hc Hwf.
  unfold threefry_2x32, unpack_keypair.
  rewrite Hs, Hk, Hd, Hc. cbn [bind dtype_eqb andb negb].
  unfold well_formed, arr_size in *. rewrite <- Hwf. unfold len.
  rewrite N_odd_of_nat.
  pose proof (length_threefry_2x32_flat ur k1 k2 (arr_data count)) as HL.
  unfold threefry_2x32_flat in *.
  pose proof (even_length_padded (arr_data count)) as E.
  destruct (Nat.odd (List.length (arr_data count))) eqn:Ho.
  - rewrite (split2_even _ E). cbn [bind fst snd].
    unfold reshape. rewrite <- Hwf. unfold len. rewrite HL.
    rewrite N.eqb_refl. reflexivity.
  - rewrite (split2_even _ E). cbn [bind fst snd].
    unfold reshape. rewrite <- Hwf. unfold len. rewrite HL.
    rewrite N.eqb_refl. reflexivity.
Qed.

Lemma threefry_2x32_flat_odd (ur : bool) (k1 k2 : Z) (xs : list Z) :
  Nat.odd (List.length xs) = true ->
  threefry_2x32_flat ur k1 k2 xs =
  removelast (threefry_2x32_flat ur k1 k2 (xs ++ [0])).
Proof.
  intros Ho. unfold threefry_2x32_flat at 2.
  assert (He : Nat.odd (List.length (xs ++ [0])) = false).
  { rewrite length_app. cbn [List.length].
    rewrite Nat.add_1_r, Nat.odd_succ.
    unfold Nat.odd in Ho. apply negb_true_iff. exact Ho. }
  rewrite He. unfold threefry_2x32_flat. rewrite Ho. reflexivity.
Qed.

Lemma well_formed_padded (count : ndarray) :
  well_formed count ->
  well_formed
    (mk_ndarray uint32 [(arr_size count + 1)%N] (arr_data count ++ [0])).
Proof.
  unfold well_formed, arr_size, len. cbn [arr_data arr_shape prod fold_right].
  intros <-. rewrite length_app. cbn [List.length]. lia.
Qed.

(** C10: on a pair of [uint32] key words and a [uint32] counter array
    of any shape, [threefry_2x32] returns a [uint32] array of exactly
    the shape of the counters; when the number of counters is odd, the
    result is the hash of the counters padded with one zero word,
    without its last output word. *)
Theorem threefry_2x32_keeps_shape (ur : bool) (key count : ndarray)
  (k1 k2 : Z) :
  raw_threefry_key key k1 k2 ->
  count.(arr_dtype) = uint32 ->
  well_formed count ->
  exists out,
    threefry_2x32 ur key count = Ok out
    /\ out.(arr_dtype) = uint32
    /\ out.(arr_shape) = count.(arr_shape)
    /\ well_formed out
    /\ Forall U32.in_range out.(arr_data)
    /\ (N.odd (arr_size count) = true ->
        exists padded_out,
          threefry_2x32 ur key
            (mk_ndarray uint32 [(arr_size count + 1)%N]
               (count.(arr_data) ++ [0])) = Ok padded_out
          /\ len padded_out.(arr_data) = (arr_size count + 1)%N
          /\ out.(arr_data) =
             firstn (N.to_nat (arr_size count)) padded_out.(arr_data)).
Proof.
  intros Hkey Hc Hwf.
  eexists. split; [ apply (threefry_2x32_eq ur key count k1 k2); assumption | ].
  cbn [arr_dtype arr_shape arr_data].
  split; [ reflexivity | ]. split; [ reflexivity | ].
  split.
  { unfold well_formed, arr_size, len in *. cbn [arr_data arr_shape].
    rewrite length_threefry_2x32_flat. exact Hwf. }
  split; [ apply threefry_2x32_flat_in_range | ].
  intros Hodd.
  pose proof (well_formed_padded count Hwf) as Hwp.
  eexists. split.
  { apply (threefry_2x32_eq ur key _ k1 k2); [ assumption | reflexivity | exact Hwp ]. }
  cbn [arr_dtype arr_shape arr_data].
  pose proof Hwf as Hlen. unfold well_formed in Hlen.
  split.
  { unfold len. rewrite length_threefry_2x32_flat, length_app.
    cbn [List.length]. rewrite <- Hlen. unfold len. lia. }
  rewrite <- Hlen in Hodd. unfold len in Hodd.
  rewrite N_odd_of_nat in Hodd.
  rewrite (threefry_2x32_flat_odd ur k1 k2 _ Hodd).
  rewrite removelast_firstn_len, length_threefry_2x32_flat, length_app.
  cbn [List.length]. rewrite <- Hlen. unfold len. rewrite Nat2N.id.
  f_equal. lia.
Qed.

Lemma threefry_2x32_keeps_shape_witness :
  let key := mk_ndarray uint32 [2%N] [0; 0] in
  let count := mk_ndarray uint32 [3%N] [0; 1; 2] in
  raw_threefry_key key 0 0 /\ count.(arr_dtype) = uint32 /\ well_formed count
  /\ exists out,
    threefry_2x32 false key count = Ok out
    /\ out.(arr_dtype) = uint32
    /\ out.(arr_shape) = count.(arr_shape)
    /\ well_formed out
    /\ Forall U32.in_range out.(arr_data)
    /\ (N.odd (arr_size count) = true ->
        exists padded_out,
          threefry_2x32 false key
            (mk_ndarray uint32 [(arr_size count + 1)%N]
               (count.(arr_data) ++ [0])) = Ok padded_out
          /\ len padded_out.(arr_data) = (arr_size count + 1)%N
          /\ out.(arr_data) =
             firstn (N.to_nat (arr_size count)) padded_out.(arr_data)).
Proof.
  intros key count.
  assert (Hk : raw_threefry_key key 0 0) by (repeat split; reflexivity).
  assert (Hc : count.(arr_dtype) = uint32) by reflexivity.
  assert (Hw : well_formed count) by reflexivity.
  split; [ exact Hk | ]. split; [ exact Hc | ]. split; [ exact Hw | ].
  exact (threefry_2x32_keeps_shape false key count 0 0 Hk Hc Hw).
Defined.

(** ** split *)

Lemma length_iota (n : N) : List.length (iota n).(arr_data) = N.to_nat n.
Proof. unfold iota. cbn [arr_data]. rewrite length_map, length_seq. reflexivity. Qed.

Lemma well_formed_iota (n : N) : well_formed (iota n).
Proof.
  unfold well_formed, len, arr_size. rewrite length_iota.
  unfold iota. cbn [arr_shape prod fold_right]. lia.
Qed.

(** The [j]-th counter of [iota n] is the word [j]. *)
Lemma nth_iota (n : N) (j : nat) :
  (j < N.to_nat n)%nat ->
  nth j (iota n).(arr_data) 0 = U32.wrap (Z.of_nat j).
Proof.
  intros H. unfold iota. cbn [arr_data].
  change 0 with ((fun i => U32.wrap (Z.of_nat i)) 0%nat) at 1.
  rewrite map_nth, seq_nth by exact H. reflexivity.
Qed.

Lemma firstn_2_skipn (xs : list Z) (i : nat) :
  (i + 1 < List.length xs)%nat ->
  firstn 2 (skipn i xs) = [nth i xs 0; nth (i + 1) xs 0].
Proof.
  revert i. induction xs as [ | a xs IH ]; intros i H.
  - cbn in H. lia.
  - destruct i as [ | i ].
    + destruct xs as [ | b xs ]; [ cbn in H; lia | reflexivity ].
    + cbn [skipn nth Nat.add]. apply IH. cbn in H. lia.
Qed.

(** [threefry_split] on a raw key: it returns the flat hash of the
    counters [0 .. 2 * num - 1] in shape [(num, 2)]. *)
Lemma threefry_split_eq (ur : bool) (key : ndarray) (k1 k2 : Z) (num : N) :
  raw_threefry_key key k1 k2 ->
  threefry_split ur key num =
  Ok (mk_ndarray uint32 [num; 2%N]
        (threefry_2x32_flat ur k1 k2 (iota (num * 2)).(arr_data))).
Proof.
  intros Hkey. unfold threefry_split, _threefry_split.
  rewrite (threefry_2x32_eq ur key (iota (num * 2)) k1 k2 Hkey eq_refl
             (well_formed_iota _)).
  cbn [bind arr_dtype arr_data]. unfold reshape, len.
  rewrite length_threefry_2x32_flat, length_iota, N2Nat.id.
  cbn [prod fold_right]. rewrite N.mul_1_r, N.eqb_refl. reflexivity.
Qed.

(** C6: [threefry_split(key, n)] hashes the counter words
    [0 .. 2n - 1] with [threefry_2x32] keyed by [key] and reshapes the
    [2n] output words into [n] keys of two words: the result has shape
    [(n, 2)] and its row [i] holds the output words [2i] and
    [2i + 1]. *)
Theorem threefry_split_counter_mode (ur : bool) (key : ndarray)
  (k1 k2 : Z) (n : N) :
  raw_threefry_key key k1 k2 ->
  exists w keys,
    threefry_2x32 ur key (iota (n * 2)) = Ok w
    /\ threefry_split ur key n = Ok keys
    /\ (forall j, (j < 2 * N.to_nat n)%nat ->
          nth j (iota (n * 2)).(arr_data) 0 = U32.wrap (Z.of_nat j)
          /\ (Z.of_nat j < U32.modulus ->
              nth j (iota (n * 2)).(arr_data) 0 = Z.of_nat j))
    /\ len w.(arr_data) = (2 * n)%N
    /\ keys = mk_ndarray uint32 [n; 2%N] w.(arr_data)
    /\ keys.(arr_shape) = random_split_base_shape threefry_prng_impl [] n
    /\ (forall i, (i < N.to_nat n)%nat ->
          key_row keys i =
          mk_ndarray uint32 [2%N]
            [nth (2 * i) w.(arr_data) 0; nth (2 * i + 1) w.(arr_data) 0]).
Proof.
  intros Hkey.
  assert (HL : List.length
                 (threefry_2x32_flat ur k1 k2 (iota (n * 2)).(arr_data))
               = (2 * N.to_nat n)%nat).
  { rewrite length_threefry_2x32_flat, length_iota, N2Nat.inj_mul.
    change (N.to_nat 2) with 2%nat. lia. }
  eexists. eexists.
  split.
  { apply (threefry_2x32_eq ur key (iota (n * 2)) k1 k2 Hkey eq_refl
             (well_formed_iota _)). }
  split; [ apply (threefry_split_eq ur key k1 k2 n Hkey) | ].
  cbn [arr_data arr_shape arr_dtype].
  split.
  { intros j Hj.
    assert (Hn : nth j (iota (n * 2)).(arr_data) 0 = U32.wrap (Z.of_nat j)).
    { apply nth_iota. rewrite N2Nat.inj_mul.
      change (N.to_nat 2) with 2%nat. lia. }
    split; [ exact Hn | ].
    intros Hlt. rewrite Hn. unfold U32.wrap. apply Z.mod_small. lia. }
  split; [ unfold len; rewrite HL; lia | ].
  split; [ reflexivity | ].
  split; [ reflexivity | ].
  intros i Hi. unfold key_row. cbn [arr_data arr_dtype].
  rewrite firstn_2_skipn by lia. reflexivity.
Qed.

Lemma threefry_split_counter_mode_witness :
  let key := mk_ndarray uint32 [2%N] [0; 42] in
  raw_threefry_key key 0 42 /\
  exists w keys,
    threefry_2x32 true key (iota (3 * 2)) = Ok w
    /\ threefry_split true key 3 = Ok keys
    /\ (forall j, (j < 2 * N.to_nat 3)%nat ->
          nth j (iota (3 * 2)).(arr_data) 0 = U32.wrap (Z.of_nat j)
          /\ (Z.of_nat j < U32.modulus ->
              nth j (iota (3 * 2)).(arr_data) 0 = Z.of_nat j))
    /\ len w.(arr_data) = (2 * 3)%N
    /\ keys = mk_ndarray uint32 [3%N; 2%N] w.(arr_data)
    /\ keys.(arr_shape) = random_split_base_shape threefry_prng_impl [] 3
    /\ (forall i, (i < N.to_nat 3)%nat ->
          key_row keys i =
          mk_ndarray uint32 [2%N]
            [nth (2 * i) w.(arr_data) 0; nth (2 * i + 1) w.(arr_data) 0]).
Proof.
  intros key.
  assert (Hk : raw_threefry_key key 0 42) by (repeat split; reflexivity).
  split; [ exact Hk | ].
  exact (threefry_split_counter_mode true key 0 42 3 Hk).
Defined.

(** ** fold_in *)

Lemma land_low_word (v : Z) : Z.land v 0xFFFFFFFF = U32.wrap v.
Proof.
  change 0xFFFFFFFF with (Z.ones 32).
  rewrite Z.land_ones by lia. reflexivity.
Qed.

Lemma wrap_wrap (v : Z) : U32.wrap (U32.wrap v) = U32.wrap v.
Proof. unfold U32.wrap, U32.modulus. apply Z.mod_mod. discriminate. Qed.

(** Seeding from a value already converted to [uint32]: the high word
    is zero and the low word is the value modulo [2^32]. *)
Lemma threefry_seed_uint32 (data : ndarray) :
  data.(arr_shape) = [] ->
  threefry_seed (jnp_uint32 data) =
  Ok (mk_ndarray uint32 [2%N] [0; U32.wrap (nth 0 data.(arr_data) 0)]).
Proof.
  intros Hs. unfold threefry_seed, jnp_uint32.
  cbn [arr_shape arr_dtype arr_data]. rewrite Hs.
  cbn [is_integer_dtype negb app].
  assert (Hn : nth 0 (map convert_to_uint32 (arr_data data)) 0 =
               U32.wrap (nth 0 (arr_data data) 0)).
  { destruct (arr_data data); reflexivity. }
  rewrite Hn. unfold convert_to_uint32.
  rewrite land_low_word, !wrap_wrap. reflexivity.
Qed.

(** Seeding from the value itself gives the same pair when the value
    has no bits above the low word. *)
Lemma threefry_seed_narrow (data : ndarray) :
  data.(arr_shape) = [] ->
  is_integer_dtype data.(arr_dtype) = true ->
  dtype_bits data.(arr_dtype) <= 32 \/ 0 <= nth 0 data.(arr_data) 0 < 2 ^ 32 ->
  threefry_seed data =
  Ok (mk_ndarray uint32 [2%N] [0; U32.wrap (nth 0 data.(arr_data) 0)]).
Proof.
  intros Hs Hi Hv. unfold threefry_seed. rewrite Hs, Hi.
  cbn [negb app]. unfold convert_to_uint32.
  rewrite land_low_word, wrap_wrap.
  assert (H0 : shift_right_logical_at (arr_dtype data)
                 (nth 0 (arr_data data) 0) 32 = 0).
  { unfold shift_right_logical_at.
    destruct (32 <? dtype_bits (arr_dtype data)) eqn:E; [ | reflexivity ].
    apply Z.ltb_lt in E. destruct Hv as [Hv | Hv]; [ lia | ].
    assert (Hb : dtype_bits (arr_dtype data) = 64)
      by (destruct (arr_dtype data); cbn in E |- *; lia).
    rewrite Hb, Z.mod_small by lia.
    rewrite Z.shiftr_div_pow2 by lia. apply Z.div_small. exact Hv. }
  rewrite H0. reflexivity.
Qed.

(** C7, as the code has it: [fold_in] asserts that [data] is a
    scalar, converts it to [uint32] and only then seeds from it, so
    the counter pair is [(0, data mod 2^32)]; this is
    [threefry_2x32(key, threefry_seed(data))] whenever [data] is an
    integer of at most 32 bits or a value within the low word. *)
Theorem threefry_fold_in_seeds_low_word (ur : bool) (key data : ndarray)
  (k1 k2 : Z) :
  raw_threefry_key key k1 k2 ->
  (data.(arr_shape) <> [] -> threefry_fold_in ur key data = Err AssertionError)
  /\ (data.(arr_shape) = [] ->
      let v := nth 0 data.(arr_data) 0 in
      threefry_fold_in ur key data =
        (count <- threefry_seed (jnp_uint32 data) ;;
         threefry_2x32 ur key count)
      /\ threefry_seed (jnp_uint32 data) =
           Ok (mk_ndarray uint32 [2%N] [0; U32.wrap v])
      /\ (exists out,
            threefry_fold_in ur key data = Ok out
            /\ out.(arr_shape) = [2%N] /\ out.(arr_dtype) = uint32
            /\ out.(arr_data) =
               [fst (_threefry2x32_lowering k1 k2 0 (U32.wrap v) ur);
                snd (_threefry2x32_lowering k1 k2 0 (U32.wrap v) ur)])
      /\ (is_integer_dtype data.(arr_dtype) = true ->
          dtype_bits data.(arr_dtype) <= 32 \/ 0 <= v < 2 ^ 32 ->
          threefry_fold_in ur key data =
            (count <- threefry_seed data ;; threefry_2x32 ur key count))).
Proof.
  intros Hkey. split.
  - intros Hs. unfold threefry_fold_in.
    destruct (arr_shape data); [ contradiction | reflexivity ].
  - intros Hs v.
    assert (Hf : threefry_fold_in ur key data =
                 (count <- threefry_seed (jnp_uint32 data) ;;
                  threefry_2x32 ur key count)).
    { unfold threefry_fold_in. rewrite Hs. reflexivity. }
    split; [ exact Hf | ].
    split; [ apply threefry_seed_uint32; exact Hs | ].
    split.
    + eexists. split.
      * rewrite Hf, (threefry_seed_uint32 data Hs). cbn [bind].
        apply (threefry_2x32_eq ur key _ k1 k2 Hkey); reflexivity.
      * cbn [arr_shape arr_dtype arr_data]. repeat split.
        unfold threefry_2x32_flat, threefry2x32_bind.
        cbn -[_threefry2x32_lowering U32.wrap].
        destruct (_threefry2x32_lowering k1 k2 0 _ ur). reflexivity.
    + intros Hi Hv. rewrite Hf.
      rewrite (threefry_seed_uint32 data Hs).
      rewrite (threefry_seed_narrow data Hs Hi Hv). reflexivity.
Qed.

Lemma threefry_fold_in_seeds_low_word_witness :
  let key := mk_ndarray uint32 [2%N] [0; 0] in
  let data := mk_ndarray int32 [] [7] in
  raw_threefry_key key 0 0 /\
  (data.(arr_shape) = [] /\
   is_integer_dtype data.(arr_dtype) = true /\
   (dtype_bits data.(arr_dtype) <= 32
    \/ 0 <= nth 0 data.(arr_data) 0 < 2 ^ 32)) /\
  threefry_fold_in false key data =
    (count <- threefry_seed data ;; threefry_2x32 false key count).
Proof.
  intros key data.
  assert (Hk : raw_threefry_key key 0 0) by (repeat split; reflexivity).
  assert (Hs : data.(arr_shape) = []) by reflexivity.
  assert (Hi : is_integer_dtype data.(arr_dtype) = true) by reflexivity.
  assert (Hv : dtype_bits data.(arr_dtype) <= 32
               \/ 0 <= nth 0 data.(arr_data) 0 < 2 ^ 32)
    by (left; cbn; lia).
  split; [ exact Hk | ]. split; [ repeat split; assumption | ].
  exact (proj2 (proj2 (proj2
           (proj2 (threefry_fold_in_seeds_low_word false key data 0 0 Hk) Hs)))
           Hi Hv).
Defined.

(** C7, as stated, fails on 64-bit data: the conversion to [uint32]
    drops the high word that [threefry_seed(data)] would keep. *)
Lemma threefry_fold_in_drops_high_word :
  let key := mk_ndarray uint32 [2%N] [0; 0] in
  let data := mk_ndarray int64 [] [2 ^ 32] in
  threefry_fold_in false key data <>
  (count <- threefry_seed data ;; threefry_2x32 false key count).
Proof. vm_compute. discriminate. Qed.

(** ** random_bits: the field width *)

Lemma valid_bit_width_spec (bit_width : Z) :
  valid_bit_width bit_width = true <-> In bit_width [8; 16; 32; 64].
Proof.
  unfold valid_bit_width. rewrite !orb_true_iff, !Z.eqb_eq.
  cbn [In]. intuition congruence.
Qed.

Lemma invalid_bit_width (bit_width : Z) :
  ~ In bit_width [8; 16; 32; 64] -> valid_bit_width bit_width = false.
Proof.
  intros H. destruct (valid_bit_width bit_width) eqn:E; [ | reflexivity ].
  apply valid_bit_width_spec in E. contradiction.
Qed.

(** C9: with a [bit_width] outside [{8, 16, 32, 64}], [random_bits]
    raises a type error and produces no result, in the Threefry
    implementation and in the RngBitGenerator one alike, whatever the
    key and the shape. *)
Theorem random_bits_rejects_bit_width
  (rng_bit_generator : ndarray -> list N -> dtype -> ndarray * ndarray)
  (ur : bool) (key : ndarray) (bit_width : Z) (shape : list N) :
  ~ In bit_width [8; 16; 32; 64] ->
  threefry_random_bits ur key bit_width shape = Err TypeError
  /\ _rbg_random_bits rng_bit_generator key bit_width shape = Err TypeError.
Proof.
  intros H. apply invalid_bit_width in H.
  unfold threefry_random_bits, _rbg_random_bits. rewrite H.
  cbn [negb]. split.
  - destruct (_is_threefry_prng_key key); reflexivity.
  - destruct (negb (shape_eqb (arr_shape key) [4%N])
              && dtype_eqb (arr_dtype key) uint32); reflexivity.
Qed.

Lemma random_bits_rejects_bit_width_witness :
  let rng := fun (key : ndarray) (_ : list N) (_ : dtype) => (key, key) in
  let key2 := mk_ndarray uint32 [2%N] [0; 1] in
  ~ In 7 [8; 16; 32; 64] /\
  threefry_random_bits true key2 7 [3%N] = Err TypeError
  /\ _rbg_random_bits rng key2 7 [3%N] = Err TypeError.
Proof.
  intros rng key2.
  assert (H : ~ In 7 [8; 16; 32; 64]).
  { cbn [In]. intros [E | [E | [E | [E | []]]]]; discriminate E. }
  split; [ exact H | ].
  exact (random_bits_rejects_bit_width rng true key2 7 [3%N] H).
Defined.

(** ** PRNGImpl: equality and hashing *)

Lemma shape_eqb_eq (s t : list N) : shape_eqb s t = true <-> s = t.
Proof.
  unfold shape_eqb. destruct (list_eq_dec N.eq_dec s t); split;
    intros; congruence.
Qed.

Lemma callable_eqb_eq (f g : Callable) : callable_eqb f g = true <-> f = g.
Proof.
  unfold callable_eqb. rewrite Pos.eqb_eq.
  destruct f, g. cbn. split; congruence.
Qed.

(** C5, as the code has it: [==] on [PRNGImpl] values is the equality
    of tuples, field by field; so two implementations with different
    tags compare unequal, and so do two implementations with one tag
    and different operation handles.  Only the hash is by tag: equal
    values have equal hashes. *)
Theorem PRNGImpl_eq_fieldwise (str_hash : string -> Z) (a b : PRNGImpl.t) :
  (PRNGImpl.eqb a b = true <-> a = b)
  /\ (PRNGImpl.tag a <> PRNGImpl.tag b -> PRNGImpl.eqb a b = false)
  /\ (PRNGImpl.eqb a b = true ->
      PRNGImpl.tag_eqb a b = true
      /\ PRNGImpl.hash str_hash a = PRNGImpl.hash str_hash b).
Proof.
  assert (Heq : PRNGImpl.eqb a b = true <-> a = b).
  { unfold PRNGImpl.eqb.
    rewrite !andb_true_iff, shape_eqb_eq, !callable_eqb_eq, String.eqb_eq.
    destruct a, b. cbn. split.
    - intros [[[[[-> ->] ->] ->] ->] ->]. reflexivity.
    - intros E. injection E as -> -> -> -> -> ->. repeat split. }
  split; [ exact Heq | ]. split.
  - intros Ht. apply not_true_is_false. intros E.
    apply Heq in E. subst b. contradiction.
  - intros E. apply Heq in E. subst b. split; [ | reflexivity ].
    unfold PRNGImpl.tag_eqb. apply String.eqb_refl.
Qed.

(** C5, as stated, fails: two implementations with the tag ["fry"]
    and different [seed] handles have identical tags and compare
    unequal. *)
Lemma PRNGImpl_same_tag_not_equal :
  let a := threefry_prng_impl in
  let b := PRNGImpl.make [2%N] fn_rbg_seed fn_threefry_split
             fn_threefry_random_bits fn_threefry_fold_in "fry" in
  ~ (PRNGImpl.eqb a b = true <-> PRNGImpl.tag_eqb a b = true).
Proof.
  intros a b [_ H].
  assert (E : PRNGImpl.eqb a b = true) by (apply H; reflexivity).
  vm_compute in E. discriminate E.
Qed.

(** ** wrap and unwrap *)

Lemma slice_last_app {A : Type} (batch ks : list A) :
  ks <> [] -> slice_last (List.length ks) (batch ++ ks) = ks.
Proof.
  intros H. unfold slice_last.
  destruct ks as [ | k ks ]; [ contradiction | ].
  cbn [List.length]. rewrite length_app. cbn [List.length].
  replace (List.length batch + S (List.length ks) - S (List.length ks))%nat
    with (List.length batch + 0)%nat by lia.
  rewrite skipn_app, Nat.add_0_r, skipn_all, Nat.sub_diag. reflexivity.
Qed.

Lemma slice_drop_last_app {A : Type} (batch ks : list A) :
  ks <> [] -> slice_drop_last (List.length ks) (batch ++ ks) = batch.
Proof.
  intros H. unfold slice_drop_last.
  destruct ks as [ | k ks ]; [ contradiction | ].
  cbn [List.length]. rewrite length_app. cbn [List.length].
  replace (List.length batch + S (List.length ks) - S (List.length ks))%nat
    with (List.length batch + 0)%nat by lia.
  rewrite firstn_app_2. cbn [firstn]. apply app_nil_r.
Qed.

(** The key-data check passes on a [uint32] array whose shape is a
    batch shape followed by a non-empty key shape. *)
Lemma check_prng_key_data_ok (impl : PRNGImpl.t) (raw : ndarray)
  (batch : list N) :
  impl.(PRNGImpl.key_shape) <> [] ->
  raw.(arr_dtype) = uint32 ->
  raw.(arr_shape) = batch ++ impl.(PRNGImpl.key_shape) ->
  _check_prng_key_data impl raw = Ok tt.
Proof.
  intros Hk Hd Hs. unfold _check_prng_key_data, arr_ndim.
  rewrite Hs, Hd, slice_last_app by exact Hk.
  assert (Hn : (List.length (batch ++ PRNGImpl.key_shape impl) <? 1)%nat
               = false).
  { apply Nat.ltb_ge. rewrite length_app.
    destruct (PRNGImpl.key_shape impl); [ contradiction | cbn; lia ]. }
  rewrite Hn.
  assert (He : shape_eqb (PRNGImpl.key_shape impl) (PRNGImpl.key_shape impl)
               = true) by (apply shape_eqb_eq; reflexivity).
  rewrite He. reflexivity.
Qed.

(** C8, as the code has it: for an implementation with a non-empty
    key shape and a raw [uint32] array whose shape is a batch shape
    followed by the key shape, [random_wrap] returns a key array of
    that batch shape, and [random_unwrap] of it is the raw array. *)
Theorem random_unwrap_wrap (prng : PRNGImpl.t) (raw : ndarray)
  (batch : list N) :
  prng.(PRNGImpl.key_shape) <> [] ->
  raw.(arr_dtype) = uint32 ->
  raw.(arr_shape) = batch ++ prng.(PRNGImpl.key_shape) ->
  exists keys,
    random_wrap raw prng = Ok keys
    /\ random_unwrap keys = raw
    /\ keys.(impl) = prng
    /\ keys_shape keys = batch.
Proof.
  intros Hk Hd Hs.
  pose proof (check_prng_key_data_ok prng raw batch Hk Hd Hs) as Hc.
  exists (mk_key_array prng raw).
  unfold random_wrap, random_wrap_impl, PRNGKeyArray_init.
  rewrite Hc. cbn [bind].
  split; [ reflexivity | ]. split; [ reflexivity | ].
  split; [ reflexivity | ].
  unfold keys_shape, base_arr_shape_to_keys_shape.
  cbn [impl _base_array]. rewrite Hs.
  apply slice_drop_last_app. exact Hk.
Qed.

Lemma random_unwrap_wrap_witness :
  let raw := mk_ndarray uint32 [3%N; 2%N] [1; 2; 3; 4; 5; 6] in
  threefry_prng_impl.(PRNGImpl.key_shape) <> []
  /\ raw.(arr_dtype) = uint32
  /\ raw.(arr_shape) = [3%N] ++ threefry_prng_impl.(PRNGImpl.key_shape)
  /\ exists keys,
       random_wrap raw threefry_prng_impl = Ok keys
       /\ random_unwrap keys = raw
       /\ keys.(impl) = threefry_prng_impl
       /\ keys_shape keys = [3%N].
Proof.
  intros raw.
  assert (Hk : threefry_prng_impl.(PRNGImpl.key_shape) <> [])
    by discriminate.
  assert (Hd : raw.(arr_dtype) = uint32) by reflexivity.
  assert (Hs : raw.(arr_shape)
               = [3%N] ++ threefry_prng_impl.(PRNGImpl.key_shape))
    by reflexivity.
  split; [ exact Hk | ]. split; [ exact Hd | ]. split; [ exact Hs | ].
  exact (random_unwrap_wrap threefry_prng_impl raw [3%N] Hk Hd Hs).
Defined.

(** C8, as stated, fails for an implementation whose key shape is
    empty: a [uint32] array of shape [(3,)] has rank one and its
    trailing zero dimensions are the key shape, yet the check compares
    [shape[-0:]], the whole shape, with [()] and rejects the array. *)
Lemma random_wrap_rejects_empty_key_shape :
  let impl := PRNGImpl.make [] fn_threefry_seed fn_threefry_split
                fn_threefry_random_bits fn_threefry_fold_in "scalar" in
  let raw := mk_ndarray uint32 [3%N] [0; 0; 0] in
  raw.(arr_dtype) = uint32
  /\ raw.(arr_shape) = [3%N] ++ impl.(PRNGImpl.key_shape)
  /\ (1 <= arr_ndim raw)%nat
  /\ well_formed raw
  /\ random_wrap raw impl = Err TypeError.
Proof. cbv zeta. repeat split. cbn. lia. Qed.

(** ** The vectorisation layer *)

Lemma mapM_ext {A B : Type} (f g : A -> result B) (l : list A) :
  (forall a, f a = g a) -> mapM f l = mapM g l.
Proof.
  intros H. induction l as [ | a l IH ]; cbn [mapM].
  - reflexivity.
  - rewrite H, IH. reflexivity.
Qed.

(** Mapping [vmap1 f] at depth [n] maps [f] one axis deeper. *)
Lemma map_at_depth_vmap1 (n : nat) (f : nd -> result nd) (x : nd) :
  map_at_depth n (vmap1 f) x = map_at_depth (S n) f x.
Proof.
  revert x. induction n as [ | n IH ]; intros x.
  - reflexivity.
  - cbn [map_at_depth] in *. destruct x as [a | l]; [ reflexivity | ].
    rewrite (mapM_ext _ _ l IH). reflexivity.
Qed.

(** [n] nested [vmap]s apply the function to the sub-arrays at depth
    [n]. *)
Lemma iterated_vmap_unary_depth (n : nat) (f : nd -> result nd) (x : nd) :
  iterated_vmap_unary n f x = map_at_depth n f x.
Proof.
  revert f. induction n as [ | n IH ]; intros f.
  - reflexivity.
  - cbn [iterated_vmap_unary]. rewrite IH. apply map_at_depth_vmap1.
Qed.

(** C4, as the code has it: for operand shapes of different ranks the
    combinator lifts [f] over the axes of the other operand when one of
    the ranks is zero, and fails its assertion of equal ranks when both
    ranks are positive. *)
Theorem iterated_vmap_binary_bcast_ranks (shape1 shape2 : list N)
  (f : binary) :
  List.length shape1 <> List.length shape2 ->
  match shape1, shape2 with
  | [], _ =>
      exists g, iterated_vmap_binary_bcast shape1 shape2 f = Ok g
        /\ forall x y, g x y = map_at_depth (List.length shape2) (f x) y
  | _, [] =>
      exists g, iterated_vmap_binary_bcast shape1 shape2 f = Ok g
        /\ forall x y,
             g x y = map_at_depth (List.length shape1) (fun x' => f x' y) x
  | _, _ => iterated_vmap_binary_bcast shape1 shape2 f = Err AssertionError
  end.
Proof.
  intros H. destruct shape1 as [ | a s1 ], shape2 as [ | b s2 ].
  - contradiction.
  - eexists. split; [ reflexivity | ].
    intros x y. apply iterated_vmap_unary_depth.
  - eexists. split; [ reflexivity | ].
    intros x y.
    apply (iterated_vmap_unary_depth _ (fun x' => f x' y)).
  - unfold iterated_vmap_binary_bcast.
    cbn [List.length Nat.eqb andb orb].
    cbn [List.length] in H.
    assert (E : (List.length s1 =? List.length s2)%nat = false)
      by (apply Nat.eqb_neq; lia).
    rewrite E. reflexivity.
Qed.

Lemma iterated_vmap_binary_bcast_ranks_witness :
  let f : binary := fun x _ => Ok x in
  List.length [2%N] <> List.length [3%N; 2%N]
  /\ iterated_vmap_binary_bcast [2%N] [3%N; 2%N] f = Err AssertionError.
Proof.
  intros f.
  assert (H : List.length [2%N] <> List.length [3%N; 2%N])
    by discriminate.
  split; [ exact H | ].
  exact (iterated_vmap_binary_bcast_ranks [2%N] [3%N; 2%N] f H).
Defined.

(** C4, as stated, fails: a rank-one operand against a rank-two
    operand, with trailing axes that agree, is not broadcast; the
    combinator stops at its assertion. *)
Lemma iterated_vmap_binary_bcast_rank_1_2 :
  ~ exists g,
      iterated_vmap_binary_bcast [2%N] [3%N; 2%N] (fun x _ => Ok x) = Ok g.
Proof. intros [g H]. vm_compute in H. discriminate H. Qed.

(** Equal ranks with a size-one axis on either side broadcast as
    usual: keys of shape [(1, 2)] against messages of shape
    [(3, 1)]. *)
Example iterated_vmap_binary_bcast_same_rank :
  let f : binary :=
    fun x y =>
      match x, y with
      | Leaf a, Leaf b => Ok (Leaf (a ++ b))
      | _, _ => Err TypeError
      end in
  let keys := Node [Node [Leaf [10]; Leaf [20]]] in
  let msgs := Node [Node [Leaf [1]]; Node [Leaf [2]]; Node [Leaf [3]]] in
  (g <- iterated_vmap_binary_bcast [1%N; 2%N] [3%N; 1%N] f ;; g keys msgs)
  = Ok (Node [Node [Leaf [10; 1]; Leaf [20; 1]];
              Node [Leaf [10; 2]; Leaf [20; 2]];
              Node [Leaf [10; 3]; Leaf [20; 3]]]).
Proof. vm_compute. reflexivity. Qed.

(** ** random_bits: the flat word sequence and its 64-bit reassembly *)

Lemma mapM_Forall {A B : Type} (f : A -> result B) (P : B -> Prop)
  (l : list A) :
  Forall (fun a => exists b, f a = Ok b /\ P b) l ->
  exists bs, mapM f l = Ok bs /\ Forall P bs.
Proof.
  induction 1 as [ | a l (b & Hb & Pb) _ (bs & Hbs & Pbs) ].
  - exists []. split; [ reflexivity | constructor ].
  - exists (b :: bs). cbn [mapM]. rewrite Hb, Hbs. cbn [bind].
    split; [ reflexivity | constructor; assumption ].
Qed.

Lemma mapM_length {A B : Type} (f : A -> result B) (l : list A)
  (bs : list B) :
  mapM f l = Ok bs -> List.length bs = List.length l.
Proof.
  revert bs. induction l as [ | a l IH ]; intros bs; cbn [mapM].
  - intros E. injection E as <-. reflexivity.
  - destruct (f a) as [b | e]; cbn [bind]; [ | discriminate ].
    destruct (mapM f l) as [bs' | e]; cbn [bind]; [ | discriminate ].
    intros E. injection E as <-. cbn [List.length].
    rewrite (IH bs' eq_refl). reflexivity.
Qed.

Lemma length_concat_uniform (u : nat) (blocks : list ndarray) :
  Forall (fun b => List.length b.(arr_data) = u
                   /\ Forall U32.in_range b.(arr_data)) blocks ->
  List.length (List.concat (map arr_data blocks))
  = (List.length blocks * u)%nat
  /\ Forall U32.in_range (List.concat (map arr_data blocks)).
Proof.
  induction 1 as [ | b bs [Hb Rb] _ [IHl IHr] ]; cbn [map List.concat].
  - split; [ reflexivity | constructor ].
  - split.
    + rewrite length_app, Hb, IHl. cbn [List.length]. lia.
    + apply Forall_app. split; assumption.
Qed.

(** A row of the keys that [split] returns is a raw key again. *)
Lemma key_row_raw (keys : ndarray) (i : nat) :
  keys.(arr_dtype) = uint32 ->
  (2 * i + 1 < List.length keys.(arr_data))%nat ->
  raw_threefry_key (key_row keys i)
    (nth (2 * i) keys.(arr_data) 0) (nth (2 * i + 1) keys.(arr_data) 0).
Proof.
  intros Hd Hl. unfold raw_threefry_key, key_row.
  cbn [arr_shape arr_dtype arr_data].
  rewrite firstn_2_skipn by exact Hl. repeat split. exact Hd.
Qed.

(** One call of the hash in counter mode: [n] words in range. *)
Lemma counter_mode_ok (ur : bool) (key : ndarray) (k1 k2 : Z) (n : N) :
  raw_threefry_key key k1 k2 ->
  exists b, threefry_2x32 ur key (iota n) = Ok b
    /\ (List.length b.(arr_data) = N.to_nat n
        /\ Forall U32.in_range b.(arr_data)).
Proof.
  intros Hkey. eexists. split.
  - apply (threefry_2x32_eq ur key (iota n) k1 k2 Hkey eq_refl
             (well_formed_iota n)).
  - cbn [arr_data]. split.
    + rewrite length_threefry_2x32_flat. apply length_iota.
    + apply threefry_2x32_flat_in_range.
Qed.

(** The flat word sequence: [threefry_bits] returns exactly
    [max_count] words of 32 bits, in the single-call case and in the
    blocked case alike. *)
Lemma threefry_bits_ok (ur : bool) (key : ndarray) (k1 k2 : Z)
  (max_count : N) :
  raw_threefry_key key k1 k2 ->
  exists w, threefry_bits ur key max_count = Ok w
    /\ len w = max_count /\ Forall U32.in_range w.
Proof.
  intros Hkey. unfold threefry_bits.
  generalize uint32_max. intros U.
  pose proof (N.div_mod' max_count U) as Hdm.
  destruct (max_count / U =? 0)%N eqn:E.
  - apply N.eqb_eq in E. rewrite E, N.mul_0_r, N.add_0_l in Hdm.
    destruct (counter_mode_ok ur key k1 k2 (max_count mod U)%N Hkey)
      as (b & Hb & Hl & Hr).
    rewrite Hb. cbn [bind]. exists b.(arr_data).
    split; [ reflexivity | ]. split; [ | exact Hr ].
    unfold len. rewrite Hl, N2Nat.id. symmetry. exact Hdm.
  - set (nblocks := (max_count / U)%N) in *.
    rewrite (threefry_split_eq ur key k1 k2 (nblocks + 1) Hkey).
    cbn [bind].
    set (keys := mk_ndarray uint32 [(nblocks + 1)%N; 2%N] _).
    assert (Hkl : List.length keys.(arr_data)
                  = (2 * (N.to_nat nblocks + 1))%nat).
    { subst keys. cbn [arr_data].
      rewrite length_threefry_2x32_flat, length_iota. lia. }
    assert (Hrow : forall i, (i <= N.to_nat nblocks)%nat ->
              exists a b, raw_threefry_key (key_row keys i) a b).
    { intros i Hi. eexists. eexists.
      apply key_row_raw; [ reflexivity | lia ]. }
    destruct (mapM_Forall
                (fun k => threefry_2x32 ur k (iota U))
                (fun b => List.length b.(arr_data) = N.to_nat U
                          /\ Forall U32.in_range b.(arr_data))
                (map (key_row keys) (seq 0 (N.to_nat nblocks))))
      as (blocks & Hblocks & Pblocks).
    { apply Forall_map, Forall_forall. intros i Hi.
      apply in_seq in Hi.
      destruct (Hrow i) as (a & b & Hab); [ lia | ].
      apply (counter_mode_ok ur _ a b U Hab). }
    rewrite Hblocks. cbn [bind].
    destruct (Hrow (N.to_nat nblocks)) as (a & b & Hab); [ lia | ].
    destruct (counter_mode_ok ur _ a b (max_count mod U)%N Hab)
      as (last & Hlast & Hll & Hlr).
    rewrite Hlast. cbn [bind].
    destruct (length_concat_uniform _ _ Pblocks) as [Hcl Hcr].
    apply mapM_length in Hblocks.
    rewrite length_map, length_seq in Hblocks.
    eexists. split; [ reflexivity | ]. split.
    + unfold len. rewrite length_app, Hcl, Hll, Hblocks.
      rewrite Nat2N.inj_add, Nat2N.inj_mul, !N2Nat.id.
      rewrite N.mul_comm. symmetry. exact Hdm.
    + apply Forall_app. split; assumption.
Qed.

Lemma shiftl_32_uint64 (x : Z) :
  U32.in_range x -> Z.shiftl x 32 mod 2 ^ 64 = Z.shiftl x 32.
Proof.
  unfold U32.in_range, U32.modulus. intros H.
  rewrite Z.shiftl_mul_pow2 by lia. apply Z.mod_small. lia.
Qed.

(** The 64-bit reassembly pairs word [i] of the first half, as the
    high word, with word [i] of the second half, as the low word. *)
Lemma assemble64_halves (w : list Z) (size : nat) :
  List.length w = (2 * size)%nat ->
  Forall U32.in_range w ->
  exists out, assemble64 w = Ok out
    /\ List.length out = size
    /\ forall i, (i < size)%nat ->
         nth i out 0 = Z.lor (Z.shiftl (nth i w 0) 32) (nth (size + i) w 0).
Proof.
  intros Hl Hr. unfold assemble64.
  assert (He : Nat.even (List.length w) = true).
  { rewrite Hl. apply Nat.even_spec. exists size. reflexivity. }
  rewrite (split2_even w He). cbn [bind fst snd].
  assert (Hh : (List.length w / 2 = size)%nat).
  { rewrite Hl, Nat.mul_comm. apply Nat.div_mul. discriminate. }
  rewrite Hh. eexists. split; [ reflexivity | ].
  assert (Hc : List.length (combine (firstn size w) (skipn size w)) = size).
  { rewrite length_combine, length_firstn, length_skipn. lia. }
  split; [ rewrite length_map; exact Hc | ].
  intros i Hi.
  set (f := fun hl : Z * Z => Z.lor (Z.shiftl (fst hl) 32 mod 2 ^ 64) (snd hl)).
  change 0 with (f (0, 0)) at 1.
  rewrite map_nth, combine_nth
    by (rewrite length_firstn, length_skipn; lia).
  subst f. cbn [fst snd].
  rewrite nth_firstn, nth_skipn.
  assert (Hlt : (i <? size)%nat = true) by (apply Nat.ltb_lt; exact Hi).
  rewrite Hlt, shiftl_32_uint64; [ reflexivity | ].
  apply Forall_nth; [ exact Hr | lia ].
Qed.

Lemma max_count_64 (size : N) :
  ((Z.to_N 64 * size / 32 = 2 * size) /\ (Z.to_N 64 * size mod 32 = 0))%N.
Proof.
  change (Z.to_N 64) with (2 * 32)%N.
  replace (2 * 32 * size)%N with (2 * size * 32)%N by lia.
  split; [ apply N.div_mul | apply N.Div0.mod_mul ]; discriminate.
Qed.

(** C2, as the code has it: with [bit_width] 64 the flat sequence of
    [2 * size] words is split into its first and its second half, and
    output element [i] is [(word_i << 32) | word_(size + i)]: the high
    words are the first half, the low words the second. *)
Theorem threefry_random_bits_64_halves (ur : bool) (key : ndarray)
  (k1 k2 : Z) (shape : list N) :
  raw_threefry_key key k1 k2 ->
  exists w out,
    threefry_bits ur key (2 * prod shape) = Ok w
    /\ len w = (2 * prod shape)%N
    /\ threefry_random_bits ur key 64 shape = Ok out
    /\ out.(arr_shape) = shape
    /\ out.(arr_dtype) = uint64
    /\ well_formed out
    /\ forall i, (i < N.to_nat (prod shape))%nat ->
         nth i out.(arr_data) 0 =
         Z.lor (Z.shiftl (nth i w 0) 32) (nth (N.to_nat (prod shape) + i) w 0).
Proof.
  intros Hkey.
  destruct (threefry_bits_ok ur key k1 k2 (2 * prod shape) Hkey)
    as (w & Hw & Hl & Hr).
  assert (Hn : List.length w = (2 * N.to_nat (prod shape))%nat).
  { apply len_eq in Hl. rewrite Hl. lia. }
  destruct (assemble64_halves w (N.to_nat (prod shape)) Hn Hr)
    as (out & Ho & Hol & Hnth).
  exists w, (mk_ndarray uint64 shape out).
  split; [ exact Hw | ]. split; [ exact Hl | ].
  split.
  { unfold threefry_random_bits.
    destruct Hkey as (Hs & Hd & _).
    unfold _is_threefry_prng_key. rewrite Hs, Hd.
    cbn [shape_eqb dtype_eqb].
    assert (Hse : shape_eqb [2%N] [2%N] = true)
      by (apply shape_eqb_eq; reflexivity).
    rewrite Hse. cbn [andb negb valid_bit_width].
    destruct (max_count_64 (prod shape)) as [Hq Hm].
    rewrite Hq, Hm. cbn [N.ltb N.compare].
    rewrite Hw. cbn [bind]. change (64 =? 64) with true. cbv iota.
    rewrite Ho. cbn [bind]. unfold reshape, len.
    rewrite Hol, N2Nat.id, N.eqb_refl. reflexivity. }
  cbn [arr_shape arr_dtype arr_data].
  split; [ reflexivity | ]. split; [ reflexivity | ].
  split; [ | exact Hnth ].
  unfold well_formed, arr_size, len. cbn [arr_shape arr_data].
  rewrite Hol. apply N2Nat.id.
Qed.

Lemma threefry_random_bits_64_halves_witness :
  let key := mk_ndarray uint32 [2%N] [0; 0] in
  raw_threefry_key key 0 0 /\
  exists w out,
    threefry_bits false key (2 * prod [2%N]) = Ok w
    /\ len w = (2 * prod [2%N])%N
    /\ threefry_random_bits false key 64 [2%N] = Ok out
    /\ out.(arr_shape) = [2%N]
    /\ out.(arr_dtype) = uint64
    /\ well_formed out
    /\ forall i, (i < N.to_nat (prod [2%N]))%nat ->
         nth i out.(arr_data) 0 =
         Z.lor (Z.shiftl (nth i w 0) 32)
               (nth (N.to_nat (prod [2%N]) + i) w 0).
Proof.
  intros key.
  assert (Hk : raw_threefry_key key 0 0) by (repeat split; reflexivity).
  split; [ exact Hk | ].
  exact (threefry_random_bits_64_halves false key 0 0 [2%N] Hk).
Defined.

(** C2, as stated, fails: for shape [(2,)] the first 64-bit output is
    not built from the consecutive words 0 and 1 of the flat
    sequence. *)
Lemma threefry_random_bits_64_not_consecutive :
  let key := mk_ndarray uint32 [2%N] [0; 0] in
  exists w out,
    threefry_bits false key 4 = Ok w
    /\ threefry_random_bits false key 64 [2%N] = Ok out
    /\ nth 0 out.(arr_data) 0 <>
       Z.lor (Z.shiftl (nth (2 * 0) w 0) 32) (nth (2 * 0 + 1) w 0).
Proof.
  intros key. eexists. eexists.
  split; [ vm_compute; reflexivity | ].
  split; [ vm_compute; reflexivity | ].
  vm_compute. discriminate.
Qed.

(** ** Reference values *)

(** The two children of the all-zero key, as the library prints them
    for [split(PRNGKey(0))]. *)
Example threefry_split_zero_key :
  threefry_split true (mk_ndarray uint32 [2%N] [0; 0]) 2
  = Ok (mk_ndarray uint32 [2%N; 2%N]
          [4146024105; 967050713; 2718843009; 1272950319]).
Proof. vm_compute. reflexivity. Qed.

(** * Further properties *)

(** ** Rotation and the mix step *)

Lemma in_range_testbit_high (x i : Z) :
  U32.in_range x -> 32 <= i -> Z.testbit x i = false.
Proof.
  unfold U32.in_range, U32.modulus. intros Hx Hi.
  destruct (Z.eq_dec x 0) as [-> | Hnz]; [ apply Z.testbit_0_l | ].
  apply Z.bits_above_log2; [ lia | ].
  assert (Z.log2 x < 32) by (apply Z.log2_lt_pow2; lia).
  lia.
Qed.

Lemma in_range_of_bits (x : Z) :
  0 <= x -> (forall i, 32 <= i -> Z.testbit x i = false) -> U32.in_range x.
Proof.
  intros Hx Hb. unfold U32.in_range, U32.modulus. split; [ exact Hx | ].
  destruct (Z.eq_dec x 0) as [-> | Hnz]; [ reflexivity | ].
  apply Z.log2_lt_pow2; [ lia | ].
  destruct (Z.lt_ge_cases (Z.log2 x) 32) as [H | H]; [ exact H | ].
  pose proof (Z.bit_log2 x ltac:(lia)) as Hl.
  rewrite (Hb _ H) in Hl. discriminate Hl.
Qed.

Lemma lor_in_range (a b : Z) :
  U32.in_range a -> U32.in_range b -> U32.in_range (Z.lor a b).
Proof.
  intros Ha Hb. apply in_range_of_bits.
  - apply Z.lor_nonneg. unfold U32.in_range in *. lia.
  - intros i Hi. rewrite Z.lor_spec.
    rewrite (in_range_testbit_high a i Ha Hi).
    rewrite (in_range_testbit_high b i Hb Hi). reflexivity.
Qed.

Lemma lxor_in_range (a b : Z) :
  U32.in_range a -> U32.in_range b -> U32.in_range (Z.lxor a b).
Proof.
  intros Ha Hb. apply in_range_of_bits.
  - apply Z.lxor_nonneg. unfold U32.in_range in *. lia.
  - intros i Hi. rewrite Z.lxor_spec.
    rewrite (in_range_testbit_high a i Ha Hi).
    rewrite (in_range_testbit_high b i Hb Hi). reflexivity.
Qed.

(** The two shifts of [rotate_left], for a rotation count below the
    width. *)
Lemma rotate_left_unfold (x d : Z) :
  0 < d < 32 ->
  rotate_left x d =
  Z.lor (Z.shiftl x d mod 2 ^ 32) (Z.shiftr x (32 - d)).
Proof.
  intros Hd. unfold rotate_left, U32.or, U32.shift_left,
    U32.shift_right_logical, U32.sub, U32.wrap, U32.modulus.
  assert (E1 : (d <? 32) = true) by (apply Z.ltb_lt; lia).
  rewrite E1, (Z.mod_small (32 - d)) by lia.
  assert (E2 : (32 - d <? 32) = true) by (apply Z.ltb_lt; lia).
  rewrite E2. reflexivity.
Qed.

Lemma rotate_left_0 (x : Z) : U32.in_range x -> rotate_left x 0 = x.
Proof.
  intros Hx. unfold rotate_left, U32.or, U32.shift_left,
    U32.shift_right_logical, U32.sub.
  change (0 <? 32) with true. change (U32.wrap (32 - 0) <? 32) with false.
  cbv iota. rewrite Z.shiftl_0_r, Z.lor_0_r.
  unfold U32.wrap. apply Z.mod_small. exact Hx.
Qed.

Lemma rotate_left_bits (x d i : Z) :
  U32.in_range x -> 0 <= d < 32 -> 0 <= i < 32 ->
  Z.testbit (rotate_left x d) i = rotated_bit x d i.
Proof.
  intros Hx Hd Hi. unfold rotated_bit.
  destruct (Z.eq_dec d 0) as [-> | Hnz].
  - rewrite rotate_left_0 by exact Hx.
    rewrite Z.sub_0_r, Z.mod_small by lia. reflexivity.
  - rewrite rotate_left_unfold by lia.
    rewrite Z.lor_spec, Z.mod_pow2_bits_low by lia.
    rewrite Z.shiftl_spec, Z.shiftr_spec by lia.
    destruct (Z.lt_ge_cases i d) as [Hlt | Hge].
    + rewrite (Z.testbit_neg_r x (i - d)) by lia. cbn [orb].
      f_equal.
      replace (i - d) with (i + (32 - d) + (-1) * 32) by lia.
      rewrite Z.mod_add by discriminate.
      rewrite Z.mod_small by lia. reflexivity.
    + rewrite (in_range_testbit_high x (i + (32 - d))) by (assumption || lia).
      rewrite orb_false_r, Z.mod_small by lia. reflexivity.
Qed.

Lemma rotate_left_in_range (x d : Z) :
  U32.in_range x -> 0 <= d < 32 -> U32.in_range (rotate_left x d).
Proof.
  intros Hx Hd. destruct (Z.eq_dec d 0) as [-> | Hnz].
  - rewrite rotate_left_0; assumption.
  - rewrite rotate_left_unfold by lia. apply lor_in_range.
    + apply wrap_in_range.
    + unfold U32.in_range, U32.modulus in *.
      rewrite Z.shiftr_div_pow2 by lia. split.
      * apply Z.div_pos; [ lia | apply Z.pow_pos_nonneg; lia ].
      * apply Z.div_lt_upper_bound; [ apply Z.pow_pos_nonneg; lia | ].
        assert (0 < 2 ^ (32 - d)) by (apply Z.pow_pos_nonneg; lia).
        nia.
Qed.

(** X1: on a 32-bit word and a count [0 <= d < 32], [rotate_left] is
    the rotation of the 32 bits: the result is a 32-bit word whose bit
    [i] is bit [(i - d) mod 32] of the argument. *)
Theorem rotate_left_is_rotation (x d : Z) :
  U32.in_range x -> 0 <= d < 32 ->
  U32.in_range (rotate_left x d)
  /\ forall i, 0 <= i < 32 ->
       Z.testbit (rotate_left x d) i = Z.testbit x ((i - d) mod 32).
Proof.
  intros Hx Hd. split.
  - apply rotate_left_in_range; assumption.
  - intros i Hi. apply (rotate_left_bits x d i Hx Hd Hi).
Qed.

Lemma rotate_left_is_rotation_witness :
  U32.in_range 0x80000001 /\ 0 <= 13 < 32
  /\ U32.in_range (rotate_left 0x80000001 13)
  /\ forall i, 0 <= i < 32 ->
       Z.testbit (rotate_left 0x80000001 13) i
       = Z.testbit 0x80000001 ((i - 13) mod 32).
Proof.
  assert (Hx : U32.in_range 0x80000001)
    by (unfold U32.in_range, U32.modulus; lia).
  assert (Hd : 0 <= 13 < 32) by lia.
  split; [ exact Hx | ]. split; [ exact Hd | ].
  exact (rotate_left_is_rotation 0x80000001 13 Hx Hd).
Defined.

Lemma rotate_left_inj (x y d : Z) :
  U32.in_range x -> U32.in_range y -> 0 <= d < 32 ->
  rotate_left x d = rotate_left y d -> x = y.
Proof.
  intros Hx Hy Hd E. apply Z.bits_inj'. intros i Hi.
  destruct (Z.lt_ge_cases i 32) as [Hlt | Hge].
  - assert (Hj : 0 <= (i + d) mod 32 < 32)
      by (apply Z.mod_pos_bound; lia).
    pose proof (rotate_left_bits x d _ Hx Hd Hj) as Bx.
    pose proof (rotate_left_bits y d _ Hy Hd Hj) as By.
    unfold rotated_bit in *.
    assert (Hk : ((i + d) mod 32 - d) mod 32 = i).
    { rewrite Zminus_mod_idemp_l.
      replace (i + d - d) with i by lia. apply Z.mod_small. lia. }
    rewrite Hk in Bx, By. rewrite <- Bx, <- By, E. reflexivity.
  - rewrite !in_range_testbit_high by assumption. reflexivity.
Qed.

(** ** The hash is a permutation of blocks *)

Lemma add_inj_l (a a' k : Z) :
  U32.in_range a -> U32.in_range a' ->
  U32.add a k = U32.add a' k -> a = a'.
Proof.
  unfold U32.in_range, U32.add, U32.wrap. intros Ha Ha' E.
  assert (H : forall z, (z + k) mod U32.modulus = (a + k) mod U32.modulus ->
                        0 <= z < U32.modulus ->
                        z = ((a + k) mod U32.modulus - k) mod U32.modulus).
  { intros z Hz Hr. rewrite <- Hz, Zminus_mod_idemp_l.
    replace (z + k - k) with z by lia. symmetry. apply Z.mod_small. exact Hr. }
  rewrite (H a eq_refl Ha). symmetry. apply H; [ symmetry; exact E | exact Ha' ].
Qed.

Lemma add_inj_r (a a' k : Z) :
  U32.in_range a -> U32.in_range a' ->
  U32.add k a = U32.add k a' -> a = a'.
Proof.
  intros Ha Ha' E. apply (add_inj_l a a' k Ha Ha').
  unfold U32.add in *. rewrite (Z.add_comm a k), (Z.add_comm a' k). exact E.
Qed.

Lemma lxor_cancel_l (s a b : Z) : Z.lxor s a = Z.lxor s b -> a = b.
Proof.
  intros E.
  assert (H : Z.lxor s (Z.lxor s a) = Z.lxor s (Z.lxor s b)) by (rewrite E; reflexivity).
  rewrite <- !Z.lxor_assoc, Z.lxor_nilpotent, !Z.lxor_0_l in H. exact H.
Qed.

Lemma apply_round_in_range (v : block) (rot : Z) :
  block_in_range v -> 0 <= rot < 32 -> block_in_range (apply_round v rot).
Proof.
  destruct v as [v0 v1]. intros [H0 H1] Hr. cbn [fst snd] in *.
  unfold apply_round, block_in_range. cbn [fst snd]. split.
  - apply wrap_in_range.
  - apply lxor_in_range; [ apply wrap_in_range | ].
    apply rotate_left_in_range; assumption.
Qed.

Lemma apply_round_inj (v w : block) (rot : Z) :
  block_in_range v -> block_in_range w -> 0 <= rot < 32 ->
  apply_round v rot = apply_round w rot -> v = w.
Proof.
  destruct v as [v0 v1], w as [w0 w1].
  intros [Hv0 Hv1] [Hw0 Hw1] Hr E. cbn [fst snd] in *.
  unfold apply_round in E. injection E as E0 E1.
  rewrite E0 in E1. unfold U32.xor in E1.
  apply lxor_cancel_l in E1.
  apply rotate_left_inj in E1; [ | assumption .. ].
  subst w1. apply add_inj_l in E0; [ | assumption .. ].
  subst w0. reflexivity.
Qed.

Lemma apply_rounds_in_range (rots : list Z) (x : block) :
  Forall (fun r => 0 <= r < 32) rots ->
  block_in_range x -> block_in_range (apply_rounds x rots).
Proof.
  unfold apply_rounds. intros H. revert x.
  induction H as [ | r rots Hr _ IH ]; intros x Hx; cbn [fold_left].
  - exact Hx.
  - apply IH, apply_round_in_range; assumption.
Qed.

Lemma apply_rounds_inj (rots : list Z) (x y : block) :
  Forall (fun r => 0 <= r < 32) rots ->
  block_in_range x -> block_in_range y ->
  apply_rounds x rots = apply_rounds y rots -> x = y.
Proof.
  unfold apply_rounds. intros H. revert x y.
  induction H as [ | r rots Hr _ IH ]; intros x y Hx Hy E; cbn [fold_left] in E.
  - exact E.
  - apply IH in E; [ | apply apply_round_in_range; assumption .. ].
    apply (apply_round_inj x y r); assumption.
Qed.

Lemma rotations_below_width (i : nat) :
  Forall (fun r => 0 <= r < 32) (nth i rotations []).
Proof.
  destruct i as [ | [ | [ | i ] ] ]; cbn [nth rotations];
    repeat constructor; lia.
Qed.

(** The rounds with their injections: a block of words goes to a
    block of words, and distinct blocks to distinct blocks. *)
Lemma scheduled_rounds_inj (n r next : nat) (ks : list Z) (x y : block) :
  block_in_range x -> block_in_range y ->
  block_in_range (scheduled_rounds n r next ks x)
  /\ (scheduled_rounds n r next ks x = scheduled_rounds n r next ks y ->
      x = y).
Proof.
  revert r next x y. induction n as [ | n IH ]; intros r next x y Hx Hy.
  - cbn [scheduled_rounds]. split; [ exact Hx | tauto ].
  - cbn [scheduled_rounds].
    pose proof (rotations_below_width ((r - 1) mod 2)) as Hrot.
    pose proof (apply_rounds_in_range _ x Hrot Hx) as Hx'.
    pose proof (apply_rounds_in_range _ y Hrot Hy) as Hy'.
    set (x' := apply_rounds x _) in *. set (y' := apply_rounds y _) in *.
    set (inj := fun z : block =>
      (U32.add (fst z) (nth (next mod 3) ks 0),
       U32.add (U32.add (snd z) (nth ((next + 1) mod 3) ks 0)) (Z.of_nat r))).
    assert (Hi : forall z, block_in_range (inj z)).
    { intros z. split; apply wrap_in_range. }
    destruct (IH (r + 1)%nat (next + 1)%nat (inj x') (inj y') (Hi x') (Hi y'))
      as [Hr Hinj].
    split; [ exact Hr | ].
    intros E. apply Hinj in E. unfold inj in E. injection E as E0 E1.
    destruct Hx' as [Hx0 Hx1], Hy' as [Hy0 Hy1].
    apply add_inj_l in E0; [ | assumption .. ].
    apply add_inj_l in E1; [ | apply wrap_in_range .. ].
    apply add_inj_l in E1; [ | assumption .. ].
    apply (apply_rounds_inj _ x y Hrot Hx Hy).
    fold x' y'. destruct x', y'. cbn [fst snd] in *. congruence.
Qed.

Lemma lowering_scheduled (k1 k2 a b : Z) (ur : bool) :
  _threefry2x32_lowering k1 k2 a b ur = threefry2x32_scheduled 1 k1 k2 a b.
Proof.
  rewrite lowering_rolled_unrolled.
  unfold _threefry2x32_lowering, threefry2x32_scheduled, key_schedule.
  cbn [fst snd]. apply unrolled_scheduled_from_ks1.
Qed.

Lemma threefry2x32_injective_aux (ur : bool) (key1 key2 a b a' b' : Z) :
  U32.in_range a -> U32.in_range b ->
  U32.in_range a' -> U32.in_range b' ->
  _threefry2x32_lowering key1 key2 a b ur =
  _threefry2x32_lowering key1 key2 a' b' ur ->
  a = a' /\ b = b'.
Proof.
  intros Ha Hb Ha' Hb' E. rewrite !lowering_scheduled in E.
  unfold threefry2x32_scheduled in E.
  apply scheduled_rounds_inj in E; [ | split; apply wrap_in_range .. ].
  injection E as E0 E1.
  apply add_inj_l in E0; [ | assumption .. ].
  apply add_inj_l in E1; [ | assumption .. ].
  split; assumption.
Qed.

(** X2: for a fixed key the Threefry-2x32 hash is injective on blocks
    of two 32-bit words, in the rolled and in the unrolled form: two
    counter pairs with the same output pair are the same pair. *)
Theorem threefry2x32_injective (ur : bool) (key1 key2 a b a' b' : Z) :
  U32.in_range a -> U32.in_range b ->
  U32.in_range a' -> U32.in_range b' ->
  _threefry2x32_lowering key1 key2 a b ur =
  _threefry2x32_lowering key1 key2 a' b' ur ->
  a = a' /\ b = b'.
Proof.
  intros Ha Hb Ha' Hb' E. rewrite !lowering_scheduled in E.
  unfold threefry2x32_scheduled in E.
  apply scheduled_rounds_inj in E; [ | split; apply wrap_in_range .. ].
  injection E as E0 E1.
  apply add_inj_l in E0; [ | assumption .. ].
  apply add_inj_l in E1; [ | assumption .. ].
  split; assumption.
Qed.

Lemma threefry2x32_injective_witness :
  U32.in_range 5 /\ U32.in_range 7
  /\ _threefry2x32_lowering 1 2 5 7 true = _threefry2x32_lowering 1 2 5 7 true
  /\ 5 = 5 /\ 7 = 7.
Proof.
  assert (H5 : U32.in_range 5) by (unfold U32.in_range, U32.modulus; lia).
  assert (H7 : U32.in_range 7) by (unfold U32.in_range, U32.modulus; lia).
  split; [ exact H5 | ]. split; [ exact H7 | ]. split; [ reflexivity | ].
  exact (threefry2x32_injective true 1 2 5 7 5 7 H5 H7 H5 H7 eq_refl).
Defined.

(** ** fold_in separates data *)

Lemma threefry_2x32_flat_pair (ur : bool) (k1 k2 a b : Z) :
  threefry_2x32_flat ur k1 k2 [a; b] =
  [fst (_threefry2x32_lowering k1 k2 a b ur);
   snd (_threefry2x32_lowering k1 k2 a b ur)].
Proof.
  unfold threefry_2x32_flat, threefry2x32_bind.
  cbn -[_threefry2x32_lowering].
  destruct (_threefry2x32_lowering k1 k2 a b ur). reflexivity.
Qed.

(** The result of [threefry_fold_in] on a raw key and scalar data. *)
Lemma threefry_fold_in_eq (ur : bool) (key data : ndarray) (k1 k2 : Z) :
  raw_threefry_key key k1 k2 ->
  data.(arr_shape) = [] ->
  threefry_fold_in ur key data =
  Ok (mk_ndarray uint32 [2%N]
        [fst (_threefry2x32_lowering k1 k2 0
                (U32.wrap (nth 0 data.(arr_data) 0)) ur);
         snd (_threefry2x32_lowering k1 k2 0
                (U32.wrap (nth 0 data.(arr_data) 0)) ur)]).
Proof.
  intros Hkey Hs. unfold threefry_fold_in, _threefry_fold_in. rewrite Hs.
  rewrite (threefry_seed_uint32 data Hs). cbn [bind].
  rewrite (threefry_2x32_eq ur key
             (mk_ndarray uint32 [2%N]
                [0; U32.wrap (nth 0 (arr_data data) 0)])
             k1 k2 Hkey eq_refl eq_refl).
  cbn [arr_shape arr_data]. rewrite threefry_2x32_flat_pair. reflexivity.
Qed.

(** X3: for a raw key, [fold_in] of two scalar data gives the same key
    exactly when the data agree modulo [2^32]; in particular distinct
    [uint32] data never collide. *)
Theorem threefry_fold_in_separates (ur : bool) (key d1 d2 : ndarray)
  (k1 k2 : Z) :
  raw_threefry_key key k1 k2 ->
  d1.(arr_shape) = [] -> d2.(arr_shape) = [] ->
  (threefry_fold_in ur key d1 = threefry_fold_in ur key d2
   <-> U32.wrap (nth 0 d1.(arr_data) 0) = U32.wrap (nth 0 d2.(arr_data) 0)).
Proof.
  intros Hkey H1 H2.
  rewrite (threefry_fold_in_eq ur key d1 k1 k2 Hkey H1).
  rewrite (threefry_fold_in_eq ur key d2 k1 k2 Hkey H2).
  split.
  - intros E.
    assert (E' : _threefry2x32_lowering k1 k2 0
                   (U32.wrap (nth 0 (arr_data d1) 0)) ur =
                 _threefry2x32_lowering k1 k2 0
                   (U32.wrap (nth 0 (arr_data d2) 0)) ur).
    { revert E.
      generalize (_threefry2x32_lowering k1 k2 0
                    (U32.wrap (nth 0 (arr_data d1) 0)) ur).
      generalize (_threefry2x32_lowering k1 k2 0
                    (U32.wrap (nth 0 (arr_data d2) 0)) ur).
      intros [p0 p1] [q0 q1] E. cbn [fst snd] in E.
      injection E as -> ->. reflexivity. }
    assert (H0 : U32.in_range 0) by (unfold U32.in_range, U32.modulus; lia).
    apply threefry2x32_injective_aux in E';
      [ apply E' | exact H0 | apply wrap_in_range
      | exact H0 | apply wrap_in_range ].
  - intros ->. reflexivity.
Qed.

Lemma threefry_fold_in_separates_witness :
  let key := mk_ndarray uint32 [2%N] [0; 0] in
  let d1 := mk_ndarray int32 [] [7] in
  let d2 := mk_ndarray int32 [] [8] in
  raw_threefry_key key 0 0 /\ d1.(arr_shape) = [] /\ d2.(arr_shape) = []
  /\ threefry_fold_in true key d1 <> threefry_fold_in true key d2.
Proof.
  intros key d1 d2.
  assert (Hk : raw_threefry_key key 0 0) by (repeat split; reflexivity).
  split; [ exact Hk | ]. split; [ reflexivity | ]. split; [ reflexivity | ].
  intros E.
  apply (proj1 (threefry_fold_in_separates true key d1 d2 0 0 Hk
                  eq_refl eq_refl)) in E.
  vm_compute in E. discriminate E.
Defined.

(** ** threefry_seed *)

Lemma integer_dtype_bits (d : dtype) :
  is_integer_dtype d = true ->
  dtype_bits d = 8 \/ dtype_bits d = 16 \/ dtype_bits d = 32
  \/ dtype_bits d = 64.
Proof. destruct d; cbn; intros H; try discriminate H; tauto. Qed.

(** X4: [threefry_seed] returns a key exactly on scalar integer
    seeds and raises a type error otherwise; the key is a raw Threefry
    key of two 32-bit words that bit-casts the seed: the first word is
    the high half and the second the low half of the two's-complement
    pattern of the seed, taken on 64 bits for a 64-bit dtype and on 32
    bits (high half zero) for a narrower one. *)
Theorem threefry_seed_bitcast (seed : ndarray) :
  let v := nth 0 seed.(arr_data) 0 in
  (seed.(arr_shape) <> [] \/ is_integer_dtype seed.(arr_dtype) = false ->
   threefry_seed seed = Err TypeError)
  /\ (seed.(arr_shape) = [] /\ is_integer_dtype seed.(arr_dtype) = true ->
      exists key k1 k2,
        threefry_seed seed = Ok key
        /\ raw_threefry_key key k1 k2
        /\ U32.in_range k1 /\ U32.in_range k2
        /\ k1 * 2 ^ 32 + k2 = v mod 2 ^ Z.max 32 (dtype_bits seed.(arr_dtype))
        /\ (dtype_bits seed.(arr_dtype) <= 32 -> k1 = 0)).
Proof.
  intros v. split.
  - intros [Hs | Hi]; unfold threefry_seed.
    + destruct (arr_shape seed); [ contradiction | reflexivity ].
    + destruct (arr_shape seed); [ | reflexivity ].
      rewrite Hi. reflexivity.
  - intros [Hs Hi]. unfold threefry_seed. rewrite Hs, Hi. cbn [negb app].
    fold v. eexists. eexists. eexists.
    split; [ reflexivity | ].
    split; [ repeat split | ].
    unfold convert_to_uint32.
    split; [ apply wrap_in_range | ]. split; [ apply wrap_in_range | ].
    rewrite land_low_word, wrap_wrap.
    unfold shift_right_logical_at, U32.wrap, U32.modulus.
    destruct (integer_dtype_bits _ Hi) as [Hb | [Hb | [Hb | Hb]]];
      rewrite Hb;
      match goal with
      | |- context [32 <? ?b] =>
          let r := eval vm_compute in (32 <? b) in
          let m := eval vm_compute in (Z.max 32 b) in
          change (32 <? b) with r; change (Z.max 32 b) with m
      end; cbv iota.
    1, 2, 3: split; [ rewrite Z.mod_0_l by discriminate; lia | reflexivity ].
    split; [ | lia ].
    rewrite Z.shiftr_div_pow2 by lia.
    assert (Hv : 0 <= v mod 2 ^ 64 < 2 ^ 64)
      by (apply Z.mod_pos_bound; reflexivity).
    rewrite (Z.mod_small (v mod 2 ^ 64 / 2 ^ 32)).
    2: { split; [ apply Z.div_pos; lia | ].
         apply Z.div_lt_upper_bound; lia. }
    replace (v mod 2 ^ 32) with ((v mod 2 ^ 64) mod 2 ^ 32).
    2: { apply Z.mod_mod_divide. exists (2 ^ 32). reflexivity. }
    pose proof (Z.div_mod (v mod 2 ^ 64) (2 ^ 32) ltac:(lia)). lia.
Qed.

Lemma threefry_seed_bitcast_witness :
  let seed := mk_ndarray int64 [] [-1] in
  (seed.(arr_shape) = [] /\ is_integer_dtype seed.(arr_dtype) = true)
  /\ exists key k1 k2,
       threefry_seed seed = Ok key
       /\ raw_threefry_key key k1 k2
       /\ U32.in_range k1 /\ U32.in_range k2
       /\ k1 * 2 ^ 32 + k2
          = nth 0 seed.(arr_data) 0
            mod 2 ^ Z.max 32 (dtype_bits seed.(arr_dtype))
       /\ (dtype_bits seed.(arr_dtype) <= 32 -> k1 = 0).
Proof.
  intros seed.
  assert (H : seed.(arr_shape) = []
              /\ is_integer_dtype seed.(arr_dtype) = true)
    by (split; reflexivity).
  split; [ exact H | ].
  exact (proj2 (threefry_seed_bitcast seed) H).
Defined.

(** ** threefry_2x32: which counters meet *)

Lemma nth_fst_split {A B : Type} (l : list (A * B)) (i : nat) (d : A * B) :
  nth i (fst (List.split l)) (fst d) = fst (nth i l d).
Proof.
  revert i. induction l as [ | [a b] l IH ]; intros i.
  - destruct i; reflexivity.
  - cbn [List.split]. specialize (IH (Nat.pred i)).
    destruct (List.split l) as [la lb]. cbn [fst] in *.
    destruct i as [ | i ]; [ reflexivity | ]. cbn [nth Nat.pred] in *.
    exact IH.
Qed.

Lemma nth_snd_split {A B : Type} (l : list (A * B)) (i : nat) (d : A * B) :
  nth i (snd (List.split l)) (snd d) = snd (nth i l d).
Proof.
  revert i. induction l as [ | [a b] l IH ]; intros i.
  - destruct i; reflexivity.
  - cbn [List.split]. specialize (IH (Nat.pred i)).
    destruct (List.split l) as [la lb]. cbn [snd] in *.
    destruct i as [ | i ]; [ reflexivity | ]. cbn [nth Nat.pred] in *.
    exact IH.
Qed.

(** Word [i] of either output half of the primitive. *)
Lemma nth_bind (ur : bool) (k1 k2 : Z) (x0 x1 : list Z) (i : nat) (d0 d1 : Z) :
  List.length x0 = List.length x1 ->
  (i < List.length x0)%nat ->
  nth i (fst (threefry2x32_bind ur k1 k2 x0 x1)) d0 =
    fst (_threefry2x32_lowering k1 k2 (nth i x0 0) (nth i x1 0) ur)
  /\ nth i (snd (threefry2x32_bind ur k1 k2 x0 x1)) d1 =
    snd (_threefry2x32_lowering k1 k2 (nth i x0 0) (nth i x1 0) ur).
Proof.
  intros Hl Hi. unfold threefry2x32_bind.
  set (f := fun c : Z * Z => _threefry2x32_lowering k1 k2 (fst c) (snd c) ur).
  assert (Hlen : (i < List.length (map f (combine x0 x1)))%nat).
  { rewrite length_map, length_combine. lia. }
  split.
  - rewrite (nth_indep _ d0 (fst (f (0, 0)))).
    2: { rewrite length_fst_split. exact Hlen. }
    rewrite nth_fst_split, map_nth, combine_nth by exact Hl. reflexivity.
  - rewrite (nth_indep _ d1 (snd (f (0, 0)))).
    2: { rewrite length_snd_split. exact Hlen. }
    rewrite nth_snd_split, map_nth, combine_nth by exact Hl. reflexivity.
Qed.

(** On an even number [2 h] of counters the flat hash pairs counter
    [i] with counter [h + i]. *)
Lemma threefry_2x32_flat_even (ur : bool) (k1 k2 : Z) (xs : list Z)
  (h i : nat) :
  List.length xs = (2 * h)%nat -> (i < h)%nat ->
  nth i (threefry_2x32_flat ur k1 k2 xs) 0 =
    fst (_threefry2x32_lowering k1 k2 (nth i xs 0) (nth (h + i) xs 0) ur)
  /\ nth (h + i) (threefry_2x32_flat ur k1 k2 xs) 0 =
    snd (_threefry2x32_lowering k1 k2 (nth i xs 0) (nth (h + i) xs 0) ur).
Proof.
  intros Hl Hi. unfold threefry_2x32_flat.
  assert (Ho : Nat.odd (List.length xs) = false).
  { rewrite Hl, Nat.odd_even. reflexivity. }
  rewrite Ho.
  assert (Hh : (List.length xs / 2 = h)%nat).
  { rewrite Hl, Nat.mul_comm. apply Nat.div_mul. discriminate. }
  rewrite Hh.
  assert (L0 : List.length (firstn h xs) = h)
    by (rewrite length_firstn; lia).
  assert (L1 : List.length (skipn h xs) = h)
    by (rewrite length_skipn; lia).
  destruct (nth_bind ur k1 k2 (firstn h xs) (skipn h xs) i 0 0) as [E0 E1];
    [ lia | lia | ].
  rewrite nth_firstn, nth_skipn in E0, E1.
  assert (Hlt : (i <? h)%nat = true) by (apply Nat.ltb_lt; exact Hi).
  rewrite Hlt in E0, E1.
  split.
  - rewrite app_nth1 by (rewrite bind_length_fst; lia). exact E0.
  - rewrite app_nth2 by (rewrite bind_length_fst; lia).
    rewrite bind_length_fst, L0, L1, Nat.min_id.
    replace (h + i - h)%nat with i by lia. exact E1.
Qed.

(** X5: on an even number [2 h] of counters, [threefry_2x32] hashes
    the block made of counter [i] and counter [h + i]: the first
    output word lands at position [i] of the result and the second at
    position [h + i]. *)
Theorem threefry_2x32_pairs_halves (ur : bool) (key count : ndarray)
  (k1 k2 : Z) (h : nat) :
  raw_threefry_key key k1 k2 ->
  count.(arr_dtype) = uint32 ->
  well_formed count ->
  List.length count.(arr_data) = (2 * h)%nat ->
  exists out,
    threefry_2x32 ur key count = Ok out
    /\ forall i, (i < h)%nat ->
         let y := _threefry2x32_lowering k1 k2
                    (nth i count.(arr_data) 0)
                    (nth (h + i) count.(arr_data) 0) ur in
         nth i out.(arr_data) 0 = fst y
         /\ nth (h + i) out.(arr_data) 0 = snd y.
Proof.
  intros Hkey Hd Hwf Hl. eexists. split.
  - apply (threefry_2x32_eq ur key count k1 k2 Hkey Hd Hwf).
  - intros i Hi. cbn [arr_data].
    apply threefry_2x32_flat_even; assumption.
Qed.

Lemma threefry_2x32_pairs_halves_witness :
  let key := mk_ndarray uint32 [2%N] [1; 2] in
  let count := mk_ndarray uint32 [2%N; 2%N] [10; 11; 12; 13] in
  raw_threefry_key key 1 2 /\ count.(arr_dtype) = uint32
  /\ well_formed count /\ List.length count.(arr_data) = (2 * 2)%nat
  /\ exists out,
       threefry_2x32 false key count = Ok out
       /\ forall i, (i < 2)%nat ->
            let y := _threefry2x32_lowering 1 2
                       (nth i count.(arr_data) 0)
                       (nth (2 + i) count.(arr_data) 0) false in
            nth i out.(arr_data) 0 = fst y
            /\ nth (2 + i) out.(arr_data) 0 = snd y.
Proof.
  intros key count.
  assert (Hk : raw_threefry_key key 1 2) by (repeat split; reflexivity).
  assert (Hd : count.(arr_dtype) = uint32) by reflexivity.
  assert (Hw : well_formed count) by reflexivity.
  assert (Hl : List.length count.(arr_data) = (2 * 2)%nat) by reflexivity.
  split; [ exact Hk | ]. split; [ exact Hd | ]. split; [ exact Hw | ].
  split; [ exact Hl | ].
  exact (threefry_2x32_pairs_halves false key count 1 2 2 Hk Hd Hw Hl).
Defined.

(** ** random_bits: shape, type and range of the result *)

Lemma Forall_firstn_list {A : Type} (P : A -> Prop) (n : nat) (l : list A) :
  Forall P l -> Forall P (firstn n l).
Proof.
  intros H. revert n. induction H as [ | a l Ha _ IH ]; intros n.
  - rewrite firstn_nil. constructor.
  - destruct n; cbn [firstn]; constructor; [ exact Ha | apply IH ].
Qed.

Lemma length_slice_words (bit_width : Z) (bits : list Z) :
  List.length (slice_words bit_width bits)
  = (List.length bits * Z.to_nat (32 / bit_width))%nat.
Proof.
  unfold slice_words. induction bits as [ | w bits IH ]; cbn [flat_map].
  - reflexivity.
  - rewrite length_app, IH, length_map, length_seq. cbn [List.length]. lia.
Qed.

Lemma slice_words_in_range (bit_width : Z) (bits : list Z) :
  0 <= bit_width ->
  Forall (fun x => 0 <= x < 2 ^ bit_width) (slice_words bit_width bits).
Proof.
  intros Hb. unfold slice_words. apply Forall_flat_map, Forall_forall.
  intros w _. apply Forall_map, Forall_forall. intros j _.
  replace (2 ^ bit_width - 1) with (Z.ones bit_width)
    by (rewrite Z.ones_equiv; lia).
  rewrite Z.land_comm, Z.land_ones by exact Hb.
  apply Z.mod_pos_bound. apply Z.pow_pos_nonneg; lia.
Qed.

Lemma lor_shiftl_32_range (hi lo : Z) :
  U32.in_range hi -> U32.in_range lo ->
  0 <= Z.lor (Z.shiftl hi 32 mod 2 ^ 64) lo < 2 ^ 64.
Proof.
  intros Hh Hl. rewrite shiftl_32_uint64 by exact Hh.
  unfold U32.in_range, U32.modulus in *.
  assert (Hs : 0 <= Z.shiftl hi 32 < 2 ^ 64)
    by (rewrite Z.shiftl_mul_pow2 by lia; lia).
  split; [ apply Z.lor_nonneg; lia | ].
  destruct (Z.eq_dec (Z.lor (Z.shiftl hi 32) lo) 0) as [-> | Hnz];
    [ reflexivity | ].
  assert (Hpos : 0 < Z.lor (Z.shiftl hi 32) lo).
  { assert (0 <= Z.lor (Z.shiftl hi 32) lo) by (apply Z.lor_nonneg; lia).
    lia. }
  apply Z.log2_lt_pow2; [ exact Hpos | ].
  rewrite Z.log2_lor by lia.
  apply Z.max_lub_lt.
  - destruct (Z.eq_dec (Z.shiftl hi 32) 0) as [-> | H0]; [ cbn; lia | ].
    apply Z.log2_lt_pow2; lia.
  - destruct (Z.eq_dec lo 0) as [-> | H0]; [ cbn; lia | ].
    assert (Z.log2 lo < 32) by (apply Z.log2_lt_pow2; lia). lia.
Qed.

Lemma In_firstn_list {A : Type} (n : nat) (l : list A) (x : A) :
  In x (firstn n l) -> In x l.
Proof.
  intros H. rewrite <- (firstn_skipn n l). apply in_or_app. left. exact H.
Qed.

Lemma In_skipn_list {A : Type} (n : nat) (l : list A) (x : A) :
  In x (skipn n l) -> In x l.
Proof.
  intros H. rewrite <- (firstn_skipn n l). apply in_or_app. right. exact H.
Qed.

Lemma assemble64_in_range (w out : list Z) :
  Forall U32.in_range w ->
  assemble64 w = Ok out -> Forall (fun x => 0 <= x < 2 ^ 64) out.
Proof.
  intros Hw. unfold assemble64, split2.
  destruct (Nat.even (List.length w)); cbn [bind fst snd]; [ | discriminate ].
  intros E. injection E as <-.
  apply Forall_map, Forall_forall. intros [hi lo] Hin. cbn [fst snd].
  rewrite Forall_forall in Hw.
  apply lor_shiftl_32_range.
  - apply Hw. apply in_combine_l in Hin.
    apply (In_firstn_list _ _ _ Hin).
  - apply Hw. apply in_combine_r in Hin.
    apply (In_skipn_list _ _ _ Hin).
Qed.

(** The number of words, [ceil(bit_width * size / 32)], for each of
    the four widths. *)
Lemma max_count_cases (bit_width : Z) (size : N) :
  In bit_width [8; 16; 32; 64] ->
  let q := (Z.to_N bit_width * size / 32)%N in
  let r := (Z.to_N bit_width * size mod 32)%N in
  let max_count := if (0 <? r)%N then (q + 1)%N else q in
  (bit_width <= 32 -> (size <= max_count * Z.to_N (32 / bit_width))%N)
  /\ (bit_width = 32 -> max_count = size)
  /\ (bit_width = 64 -> max_count = (2 * size)%N).
Proof.
  intros Hin q r max_count.
  pose proof (N.div_mod' (Z.to_N bit_width * size) 32) as Hdm.
  pose proof (N.mod_upper_bound (Z.to_N bit_width * size) 32 ltac:(discriminate))
    as Hr.
  fold q r in Hdm, Hr.
  assert (Hm : (max_count = q /\ r = 0 \/ max_count = q + 1 /\ 0 < r)%N).
  { subst max_count. destruct (0 <? r)%N eqn:E.
    - apply N.ltb_lt in E. right. split; [ reflexivity | exact E ].
    - apply N.ltb_ge in E. left. split; [ reflexivity | lia ]. }
  clearbody q r max_count.
  cbn [In] in Hin.
  destruct Hin as [<- | [<- | [<- | [<- | []]]]].
  - change (Z.to_N 8) with 8%N in *. change (Z.to_N (32 / 8)) with 4%N.
    repeat split; try discriminate. intros _. lia.
  - change (Z.to_N 16) with 16%N in *. change (Z.to_N (32 / 16)) with 2%N.
    repeat split; try discriminate. intros _. lia.
  - change (Z.to_N 32) with 32%N in *. change (Z.to_N (32 / 32)) with 1%N.
    repeat split; try discriminate; intros _; lia.
  - change (Z.to_N 64) with 64%N in *.
    repeat split; try discriminate; intros H; lia.
Qed.

(** X6: on a raw key and a width in [{8, 16, 32, 64}],
    [threefry_random_bits] returns an array of the requested shape,
    of the unsigned type of that width, with one element per position
    of the shape, every element below [2^bit_width]; this covers the
    empty shape [()], which gives exactly one value. *)
Theorem threefry_random_bits_result (ur : bool) (key : ndarray)
  (k1 k2 : Z) (bit_width : Z) (shape : list N) :
  raw_threefry_key key k1 k2 ->
  In bit_width [8; 16; 32; 64] ->
  exists out,
    threefry_random_bits ur key bit_width shape = Ok out
    /\ out.(arr_shape) = shape
    /\ out.(arr_dtype) = UINT_DTYPES bit_width
    /\ len out.(arr_data) = prod shape
    /\ Forall (fun x => 0 <= x < 2 ^ bit_width) out.(arr_data).
Proof.
  intros Hkey Hin.
  pose proof (max_count_cases bit_width (prod shape) Hin) as Hmc.
  cbv zeta in Hmc.
  unfold threefry_random_bits.
  pose proof Hkey as (Hs & Hd & _).
  unfold _is_threefry_prng_key. rewrite Hs, Hd.
  assert (Hse : shape_eqb [2%N] [2%N] = true)
    by (apply shape_eqb_eq; reflexivity).
  rewrite Hse, (proj2 (valid_bit_width_spec bit_width) Hin).
  cbn [andb negb dtype_eqb]. cbv zeta.
  set (max_count :=
         if (0 <? Z.to_N bit_width * prod shape mod 32)%N
         then (Z.to_N bit_width * prod shape / 32 + 1)%N
         else (Z.to_N bit_width * prod shape / 32)%N) in *.
  destruct (threefry_bits_ok ur key k1 k2 max_count Hkey)
    as (w & Hw & Hl & Hr).
  rewrite Hw. cbn [bind]. clearbody max_count.
  destruct Hmc as (H1 & H32 & H64).
  pose proof (len_eq _ _ Hl) as Hn.
  cbn [In] in Hin.
  destruct Hin as [<- | [<- | [<- | [<- | []]]]].
  - (* 8 bits *)
    change (8 =? 64) with false. change ((8 =? 8) || (8 =? 16)) with true.
    cbv iota. cbn [bind]. specialize (H1 ltac:(lia)).
    change (Z.to_N (32 / 8)) with 4%N in H1.
    assert (Hlen : len (firstn (N.to_nat (prod shape)) (slice_words 8 w))
                   = prod shape).
    { unfold len. rewrite length_firstn, length_slice_words, Hn.
      change (Z.to_nat (32 / 8)) with 4%nat. lia. }
    unfold reshape. rewrite Hlen, N.eqb_refl. eexists.
    split; [ reflexivity | ]. cbn [arr_shape arr_dtype arr_data].
    repeat split; [ exact Hlen | ].
    apply Forall_firstn_list, slice_words_in_range. lia.
  - (* 16 bits *)
    change (16 =? 64) with false. change ((16 =? 8) || (16 =? 16)) with true.
    cbv iota. cbn [bind]. specialize (H1 ltac:(lia)).
    change (Z.to_N (32 / 16)) with 2%N in H1.
    assert (Hlen : len (firstn (N.to_nat (prod shape)) (slice_words 16 w))
                   = prod shape).
    { unfold len. rewrite length_firstn, length_slice_words, Hn.
      change (Z.to_nat (32 / 16)) with 2%nat. lia. }
    unfold reshape. rewrite Hlen, N.eqb_refl. eexists.
    split; [ reflexivity | ]. cbn [arr_shape arr_dtype arr_data].
    repeat split; [ exact Hlen | ].
    apply Forall_firstn_list, slice_words_in_range. lia.
  - (* 32 bits *)
    change (32 =? 64) with false. change ((32 =? 8) || (32 =? 16)) with false.
    cbv iota. cbn [bind]. specialize (H32 eq_refl).
    unfold reshape. rewrite Hl, H32, N.eqb_refl. eexists.
    split; [ reflexivity | ]. cbn [arr_shape arr_dtype arr_data].
    repeat split; [ rewrite Hl; exact H32 | exact Hr ].
  - (* 64 bits *)
    change (64 =? 64) with true. cbv iota. specialize (H64 eq_refl).
    assert (Hn2 : List.length w = (2 * N.to_nat (prod shape))%nat)
      by (rewrite Hn, H64; lia).
    destruct (assemble64_halves w (N.to_nat (prod shape)) Hn2 Hr)
      as (out & Ho & Hol & _).
    rewrite Ho. cbn [bind]. unfold reshape, len.
    rewrite Hol, N2Nat.id, N.eqb_refl. eexists.
    split; [ reflexivity | ]. cbn [arr_shape arr_dtype arr_data].
    repeat split; [ rewrite Hol; apply N2Nat.id | ].
    apply (assemble64_in_range w out Hr Ho).
Qed.

Lemma threefry_random_bits_result_witness :
  let key := mk_ndarray uint32 [2%N] [0; 0] in
  raw_threefry_key key 0 0 /\ In 16 [8; 16; 32; 64]
  /\ exists out,
       threefry_random_bits true key 16 [] = Ok out
       /\ out.(arr_shape) = []
       /\ out.(arr_dtype) = UINT_DTYPES 16
       /\ len out.(arr_data) = prod []
       /\ Forall (fun x => 0 <= x < 2 ^ 16) out.(arr_data).
Proof.
  intros key.
  assert (Hk : raw_threefry_key key 0 0) by (repeat split; reflexivity).
  assert (Hin : In 16 [8; 16; 32; 64]) by (cbn; tauto).
  split; [ exact Hk | ]. split; [ exact Hin | ].
  exact (threefry_random_bits_result true key 0 0 16 [] Hk Hin).
Defined.

(** ** random_bits: the order of the 8- and 16-bit fields *)

Lemma nth_flat_map_uniform {A : Type} (f : A -> list Z) (k : nat)
  (l : list A) (a0 : A) (i : nat) :
  (forall a, List.length (f a) = k) ->
  (i < List.length l * k)%nat ->
  nth i (flat_map f l) 0 = nth (i mod k) (f (nth (i / k) l a0)) 0.
Proof.
  intros Hk. revert i. induction l as [ | a l IH ]; intros i Hi.
  - cbn in Hi. lia.
  - assert (Hpos : (0 < k)%nat) by (cbn [List.length] in Hi; nia).
    cbn [flat_map]. destruct (Nat.lt_ge_cases i k) as [Hlt | Hge].
    + rewrite app_nth1 by (rewrite Hk; exact Hlt).
      rewrite Nat.div_small, Nat.mod_small by exact Hlt. reflexivity.
    + rewrite app_nth2 by (rewrite Hk; exact Hge). rewrite Hk.
      replace i with ((i - k) + 1 * k)%nat at 2 3 by lia.
      rewrite Nat.div_add, Nat.Div0.mod_add by lia.
      rewrite Nat.add_1_r. cbn [nth].
      apply IH. cbn [List.length] in Hi. lia.
Qed.

(** Field [j] of a word: shift right by [j] widths, keep the low
    [bit_width] bits. *)
Lemma nth_slice_word (bit_width w : Z) (j : nat) :
  0 < bit_width ->
  bit_width * Z.of_nat j < 32 ->
  (j < Z.to_nat (32 / bit_width))%nat ->
  nth j (map (fun j => Z.land (2 ^ bit_width - 1)
                         (U32.shift_right_logical w
                            (bit_width * Z.of_nat j)))
             (seq 0 (Z.to_nat (32 / bit_width)))) 0
  = (w / 2 ^ (bit_width * Z.of_nat j)) mod 2 ^ bit_width.
Proof.
  intros Hb Hs Hj.
  set (g := fun j => Z.land (2 ^ bit_width - 1)
                       (U32.shift_right_logical w (bit_width * Z.of_nat j))).
  rewrite (nth_indep _ 0 (g 0%nat))
    by (rewrite length_map, length_seq; exact Hj).
  rewrite map_nth, seq_nth by exact Hj. cbn [Nat.add]. subst g. cbv beta.
  unfold U32.shift_right_logical.
  assert (E : (bit_width * Z.of_nat j <? 32) = true)
    by (apply Z.ltb_lt; exact Hs).
  rewrite E.
  replace (2 ^ bit_width - 1) with (Z.ones bit_width)
    by (rewrite Z.ones_equiv; lia).
  rewrite Z.land_comm, Z.land_ones, Z.shiftr_div_pow2 by lia.
  reflexivity.
Qed.

(** X7: for the widths 8 and 16, output element [i] of
    [threefry_random_bits] is field [i mod k] of word [i / k] of the
    flat word sequence, [k = 32 / bit_width] fields per word, counted
    from the least significant end: the result is the little-endian
    reinterpretation of the words, cut to the requested size. *)
Theorem threefry_random_bits_fields (ur : bool) (key : ndarray)
  (k1 k2 : Z) (bit_width : Z) (shape : list N) :
  raw_threefry_key key k1 k2 ->
  bit_width = 8 \/ bit_width = 16 ->
  let k := Z.to_nat (32 / bit_width) in
  let max_count :=
    ((prod shape + N.of_nat k - 1) / N.of_nat k)%N in
  exists w out,
    threefry_bits ur key max_count = Ok w
    /\ len w = max_count
    /\ threefry_random_bits ur key bit_width shape = Ok out
    /\ forall i, (i < N.to_nat (prod shape))%nat ->
         nth i out.(arr_data) 0 =
         (nth (i / k) w 0 / 2 ^ (bit_width * Z.of_nat (i mod k)))
           mod 2 ^ bit_width.
Proof.
  intros Hkey Hbw k max_count.
  assert (Hin : In bit_width [8; 16; 32; 64])
    by (cbn [In]; destruct Hbw; subst; tauto).
  pose proof (max_count_cases bit_width (prod shape) Hin) as Hmc.
  cbv zeta in Hmc. destruct Hmc as (H1 & _ & _).
  assert (Hmax : max_count =
                 if (0 <? Z.to_N bit_width * prod shape mod 32)%N
                 then (Z.to_N bit_width * prod shape / 32 + 1)%N
                 else (Z.to_N bit_width * prod shape / 32)%N).
  { subst max_count k. clear H1.
    pose proof (N.div_mod' (Z.to_N bit_width * prod shape) 32) as Hdm.
    pose proof (N.mod_upper_bound (Z.to_N bit_width * prod shape) 32
                  ltac:(discriminate)) as Hr.
    set (q := (Z.to_N bit_width * prod shape / 32)%N) in *.
    set (r := (Z.to_N bit_width * prod shape mod 32)%N) in *.
    clearbody q r.
    destruct Hbw as [-> | ->].
    - change (N.of_nat (Z.to_nat (32 / 8))) with 4%N.
      change (Z.to_N 8) with 8%N in *.
      destruct (0 <? r)%N eqn:E;
        [ apply N.ltb_lt in E | apply N.ltb_ge in E ].
      + symmetry.
        apply (N.div_unique _ 4 _ (prod shape - 4 * q - 1)%N); lia.
      + symmetry. apply (N.div_unique _ 4 _ 3%N); lia.
    - change (N.of_nat (Z.to_nat (32 / 16))) with 2%N.
      change (Z.to_N 16) with 16%N in *.
      destruct (0 <? r)%N eqn:E;
        [ apply N.ltb_lt in E | apply N.ltb_ge in E ].
      + symmetry. apply (N.div_unique _ 2 _ 0%N); lia.
      + symmetry. apply (N.div_unique _ 2 _ 1%N); lia. }
  destruct (threefry_bits_ok ur key k1 k2 max_count Hkey)
    as (w & Hw & Hl & Hr).
  pose proof (len_eq _ _ Hl) as Hn.
  exists w.
  exists (mk_ndarray (UINT_DTYPES bit_width) shape
            (firstn (N.to_nat (prod shape)) (slice_words bit_width w))).
  split; [ exact Hw | ]. split; [ exact Hl | ].
  assert (Hk : (N.to_nat (prod shape) <= List.length w * k)%nat).
  { specialize (H1 ltac:(destruct Hbw; subst; lia)).
    rewrite <- Hmax in H1. rewrite Hn. subst k.
    destruct Hbw as [-> | ->];
      [ change (Z.to_N (32 / 8)) with 4%N in H1;
        change (Z.to_nat (32 / 8)) with 4%nat
      | change (Z.to_N (32 / 16)) with 2%N in H1;
        change (Z.to_nat (32 / 16)) with 2%nat ]; lia. }
  split.
  - unfold threefry_random_bits.
    pose proof Hkey as (Hs & Hd & _).
    unfold _is_threefry_prng_key. rewrite Hs, Hd.
    assert (Hse : shape_eqb [2%N] [2%N] = true)
      by (apply shape_eqb_eq; reflexivity).
    rewrite Hse, (proj2 (valid_bit_width_spec bit_width) Hin).
    cbn [andb negb dtype_eqb]. cbv zeta.
    rewrite <- Hmax, Hw. cbn [bind].
    assert (E64 : (bit_width =? 64) = false)
      by (destruct Hbw; subst; reflexivity).
    assert (E8 : (bit_width =? 8) || (bit_width =? 16) = true)
      by (destruct Hbw; subst; reflexivity).
    rewrite E64, E8. cbn [bind]. unfold reshape, len.
    rewrite length_firstn, length_slice_words. fold k.
    rewrite Nat.min_l by exact Hk.
    rewrite N2Nat.id, N.eqb_refl. reflexivity.
  - intros i Hi. cbn [arr_data].
    rewrite nth_firstn.
    assert (Hlt : (i <? N.to_nat (prod shape))%nat = true)
      by (apply Nat.ltb_lt; exact Hi).
    rewrite Hlt. unfold slice_words. fold k.
    assert (Hkpos : (0 < k)%nat)
      by (subst k; destruct Hbw; subst; cbn; lia).
    rewrite (nth_flat_map_uniform _ k w 0 i);
      [ | intros a; rewrite length_map, length_seq; reflexivity | lia ].
    assert (Hj : (i mod k < k)%nat) by (apply Nat.mod_upper_bound; lia).
    subst k. apply nth_slice_word.
    + destruct Hbw; subst; lia.
    + destruct Hbw as [-> | ->];
        [ change (Z.to_nat (32 / 8)) with 4%nat in *
        | change (Z.to_nat (32 / 16)) with 2%nat in * ]; lia.
    + exact Hj.
Qed.

Lemma threefry_random_bits_fields_witness :
  let key := mk_ndarray uint32 [2%N] [0; 0] in
  raw_threefry_key key 0 0 /\ (8 = 8 \/ 8 = 16)
  /\ exists w out,
       threefry_bits true key
         ((prod [5%N] + N.of_nat (Z.to_nat (32 / 8)) - 1)
          / N.of_nat (Z.to_nat (32 / 8))) = Ok w
       /\ len w = ((prod [5%N] + N.of_nat (Z.to_nat (32 / 8)) - 1)
                   / N.of_nat (Z.to_nat (32 / 8)))%N
       /\ threefry_random_bits true key 8 [5%N] = Ok out
       /\ forall i, (i < N.to_nat (prod [5%N]))%nat ->
            nth i out.(arr_data) 0 =
            (nth (i / Z.to_nat (32 / 8)) w 0
             / 2 ^ (8 * Z.of_nat (i mod Z.to_nat (32 / 8)))) mod 2 ^ 8.
Proof.
  intros key.
  assert (Hk : raw_threefry_key key 0 0) by (repeat split; reflexivity).
  assert (Hb : 8 = 8 \/ 8 = 16) by (left; reflexivity).
  split; [ exact Hk | ]. split; [ exact Hb | ].
  exact (threefry_random_bits_fields true key 0 0 8 [5%N] Hk Hb).
Defined.

(** ** random_bits and split draw the same words *)

(** X8: while the counters fit in one call ([2 n] below
    [2^32 - 1]), the [2 n] words that [threefry_random_bits] returns
    for width 32 and shape [(2 n,)] are the very words of the [n] keys
    that [threefry_split] derives from the same key. *)
Theorem threefry_random_bits_32_is_split (ur : bool) (key : ndarray)
  (k1 k2 : Z) (n : N) :
  raw_threefry_key key k1 k2 ->
  (2 * n < uint32_max)%N ->
  exists out keys,
    threefry_random_bits ur key 32 [(2 * n)%N] = Ok out
    /\ threefry_split ur key n = Ok keys
    /\ out.(arr_data) = keys.(arr_data)
    /\ len out.(arr_data) = (2 * n)%N.
Proof.
  intros Hkey Hlt.
  exists (mk_ndarray uint32 [(2 * n)%N]
            (threefry_2x32_flat ur k1 k2 (iota (n * 2)).(arr_data))).
  eexists.
  split; [ | split; [ apply (threefry_split_eq ur key k1 k2 n Hkey) | ] ].
  - unfold threefry_random_bits.
    pose proof Hkey as (Hs & Hd & _).
    unfold _is_threefry_prng_key. rewrite Hs, Hd.
    assert (Hse : shape_eqb [2%N] [2%N] = true)
      by (apply shape_eqb_eq; reflexivity).
    rewrite Hse. cbn [andb negb dtype_eqb valid_bit_width]. cbv zeta.
    change (Z.to_N 32) with 32%N.
    assert (Hp : prod [(2 * n)%N] = (n * 2)%N)
      by (cbn [prod fold_right]; lia).
    rewrite Hp.
    replace (32 * (n * 2))%N with (n * 2 * 32)%N by lia.
    rewrite N.div_mul, N.Div0.mod_mul by discriminate.
    cbn [N.ltb N.compare]. unfold threefry_bits.
    rewrite N.div_small, N.mod_small by lia.
    cbn [N.eqb].
    rewrite (threefry_2x32_eq ur key (iota (n * 2)) k1 k2 Hkey eq_refl
               (well_formed_iota _)).
    cbn [bind arr_data]. change (32 =? 64) with false.
    change ((32 =? 8) || (32 =? 16)) with false. cbv iota. cbn [bind].
    unfold reshape, len.
    rewrite length_threefry_2x32_flat, length_iota, N2Nat.id.
    cbn [prod fold_right]. 
    replace (2 * n * 1)%N with (n * 2)%N by lia.
    rewrite N.eqb_refl. reflexivity.
  - cbn [arr_data]. split; [ reflexivity | ].
    unfold len. rewrite length_threefry_2x32_flat, length_iota. lia.
Qed.

Lemma threefry_random_bits_32_is_split_witness :
  let key := mk_ndarray uint32 [2%N] [0; 0] in
  raw_threefry_key key 0 0 /\ (2 * 2 < uint32_max)%N
  /\ exists out keys,
       threefry_random_bits false key 32 [(2 * 2)%N] = Ok out
       /\ threefry_split false key 2 = Ok keys
       /\ out.(arr_data) = keys.(arr_data)
       /\ len out.(arr_data) = (2 * 2)%N.
Proof.
  intros key.
  assert (Hk : raw_threefry_key key 0 0) by (repeat split; reflexivity).
  assert (Hlt : (2 * 2 < uint32_max)%N) by reflexivity.
  split; [ exact Hk | ]. split; [ exact Hlt | ].
  exact (threefry_random_bits_32_is_split false key 0 0 2 Hk Hlt).
Defined.

(** ** The key-data check and the key array *)

Lemma slice_last_suffix {A : Type} (n : nat) (xs ks : list A) :
  n = List.length ks -> ks <> [] ->
  slice_last n xs = ks -> exists batch, xs = batch ++ ks.
Proof.
  intros -> Hk E. unfold slice_last in E.
  destruct ks as [ | k ks ]; [ contradiction | ].
  cbn [List.length] in E.
  exists (firstn (List.length xs - S (List.length ks)) xs).
  rewrite <- E. symmetry. apply firstn_skipn.
Qed.

Lemma dtype_eqb_eq (a b : dtype) : dtype_eqb a b = true <-> a = b.
Proof. destruct a, b; cbn; split; intros H; congruence. Qed.

(** When the check passes. *)
Lemma check_prng_key_data_spec (p : PRNGImpl.t) (a : ndarray) :
  _check_prng_key_data p a = Ok tt <->
  p.(PRNGImpl.key_shape) <> []
  /\ (exists batch, a.(arr_shape) = batch ++ p.(PRNGImpl.key_shape))
  /\ (a.(arr_dtype) = uint32 \/ a.(arr_dtype) = float0).
Proof.
  unfold _check_prng_key_data, arr_ndim. split.
  - destruct (List.length (arr_shape a) <? 1)%nat eqn:E1; [ discriminate | ].
    destruct (shape_eqb _ _) eqn:E2; cbn [negb]; [ | discriminate ].
    destruct (dtype_eqb (arr_dtype a) uint32 || dtype_eqb (arr_dtype a) float0)
      eqn:E3; cbn [negb]; [ | discriminate ].
    intros _. apply Nat.ltb_ge in E1. apply shape_eqb_eq in E2.
    assert (Hk : PRNGImpl.key_shape p <> []).
    { intros Hnil. rewrite Hnil in E2. cbn in E2.
      rewrite E2 in E1. cbn in E1. lia. }
    split; [ exact Hk | ]. split.
    + apply (slice_last_suffix _ _ _ eq_refl Hk E2).
    + apply orb_true_iff in E3. rewrite !dtype_eqb_eq in E3. exact E3.
  - intros (Hk & (batch & Hs) & Hd).
    rewrite Hs, slice_last_app by exact Hk.
    assert (Hn : (List.length (batch ++ PRNGImpl.key_shape p) <? 1)%nat
                 = false).
    { apply Nat.ltb_ge. rewrite length_app.
      destruct (PRNGImpl.key_shape p); [ contradiction | cbn; lia ]. }
    rewrite Hn.
    assert (He : shape_eqb (PRNGImpl.key_shape p) (PRNGImpl.key_shape p)
                 = true) by (apply shape_eqb_eq; reflexivity).
    rewrite He. cbn [negb].
    assert (Hdt : dtype_eqb (arr_dtype a) uint32
                  || dtype_eqb (arr_dtype a) float0 = true).
    { apply orb_true_iff. rewrite !dtype_eqb_eq. exact Hd. }
    rewrite Hdt. reflexivity.
Qed.

(** X9: [_check_prng_key_data] accepts an array exactly when the key
    shape of the implementation is non-empty, the shape of the array
    ends with it, and the dtype is [uint32] or [float0]; every
    rejection is a type error.  An implementation with an empty key
    shape has no valid key data. *)
Theorem check_prng_key_data_accepts (p : PRNGImpl.t) (a : ndarray) :
  (_check_prng_key_data p a = Ok tt <->
   p.(PRNGImpl.key_shape) <> []
   /\ (exists batch, a.(arr_shape) = batch ++ p.(PRNGImpl.key_shape))
   /\ (a.(arr_dtype) = uint32 \/ a.(arr_dtype) = float0))
  /\ (_check_prng_key_data p a <> Ok tt ->
      _check_prng_key_data p a = Err TypeError).
Proof.
  split; [ apply check_prng_key_data_spec | ].
  unfold _check_prng_key_data.
  destruct (arr_ndim a <? 1)%nat; [ reflexivity | ].
  destruct (negb (shape_eqb _ _)); [ reflexivity | ].
  destruct (negb (dtype_eqb _ _ || dtype_eqb _ _)); [ reflexivity | ].
  intros H. contradiction H. reflexivity.
Qed.

Lemma key_array_init_inv (p : PRNGImpl.t) (a : ndarray) (keys : PRNGKeyArray) :
  PRNGKeyArray_init p a = Ok keys ->
  keys = mk_key_array p a
  /\ p.(PRNGImpl.key_shape) <> []
  /\ a.(arr_shape) = keys_shape keys ++ p.(PRNGImpl.key_shape)
  /\ (a.(arr_dtype) = uint32 \/ a.(arr_dtype) = float0).
Proof.
  unfold PRNGKeyArray_init.
  destruct (_check_prng_key_data p a) as [[] | e] eqn:E; cbn [bind];
    [ | discriminate ].
  intros H. injection H as <-.
  apply check_prng_key_data_spec in E.
  destruct E as (Hk & (batch & Hs) & Hd).
  split; [ reflexivity | ]. split; [ exact Hk | ]. split; [ | exact Hd ].
  unfold keys_shape, base_arr_shape_to_keys_shape.
  cbn [impl _base_array]. rewrite Hs at 2.
  rewrite slice_drop_last_app by exact Hk. exact Hs.
Qed.

(** X10: a key array that was constructed keeps the invariant of its
    base array: the base shape is the shape of the keys followed by
    the key shape of the implementation, so the rank of the keys is
    the base rank less the rank of the key shape, and the key array is
    scalar exactly when its shape is empty. *)
Theorem key_array_invariant (p : PRNGImpl.t) (a : ndarray)
  (keys : PRNGKeyArray) :
  PRNGKeyArray_init p a = Ok keys ->
  keys.(impl) = p
  /\ unsafe_raw_array keys = a
  /\ a.(arr_shape) = keys_shape keys ++ p.(PRNGImpl.key_shape)
  /\ (keys_ndim keys + List.length p.(PRNGImpl.key_shape) = arr_ndim a)%nat
  /\ (_is_scalar keys = true <-> keys_shape keys = []).
Proof.
  intros H. apply key_array_init_inv in H.
  destruct H as (-> & Hk & Hs & _).
  cbn [impl unsafe_raw_array _base_array].
  split; [ reflexivity | ]. split; [ reflexivity | ].
  split; [ exact Hs | ].
  assert (Hn : (keys_ndim (mk_key_array p a)
                + List.length (PRNGImpl.key_shape p) = arr_ndim a)%nat).
  { unfold keys_ndim, arr_ndim. rewrite Hs at 1.
    rewrite length_app. reflexivity. }
  split; [ exact Hn | ].
  unfold _is_scalar. cbn [impl _base_array].
  rewrite Nat.eqb_eq, <- Hn. unfold keys_ndim.
  rewrite <- length_zero_iff_nil. lia.
Qed.

Lemma key_array_invariant_witness :
  let a := mk_ndarray uint32 [3%N; 4%N] (repeat 0 12) in
  let keys := mk_key_array rbg_prng_impl a in
  PRNGKeyArray_init rbg_prng_impl a = Ok keys
  /\ a.(arr_shape)
     = keys_shape keys ++ rbg_prng_impl.(PRNGImpl.key_shape)
  /\ (_is_scalar keys = true <-> keys_shape keys = []).
Proof.
  intros a keys.
  assert (H : PRNGKeyArray_init rbg_prng_impl a = Ok keys) by reflexivity.
  split; [ exact H | ].
  pose proof (key_array_invariant rbg_prng_impl a keys H)
    as (_ & _ & Hs & _ & Hsc).
  split; [ exact Hs | exact Hsc ].
Defined.

(** ** Size of and iteration over a key array *)

Lemma key_array_not_scalar (p : PRNGImpl.t) (a : ndarray) (n : N)
  (rest : list N) :
  a.(arr_shape) = (n :: rest) ++ p.(PRNGImpl.key_shape) ->
  _is_scalar (mk_key_array p a) = false.
Proof.
  intros Hs. unfold _is_scalar, arr_ndim. cbn [impl _base_array].
  rewrite Hs, length_app. cbn [List.length]. apply Nat.eqb_neq. lia.
Qed.

(** X11: [len] of a constructed key array is the size of the leading
    axis of its shape, and a type error when the key array is scalar;
    the trailing key dimensions never count. *)
Theorem key_array_len (p : PRNGImpl.t) (a : ndarray) (keys : PRNGKeyArray) :
  PRNGKeyArray_init p a = Ok keys ->
  match keys_shape keys with
  | [] => PRNGKeyArray_len keys = Err TypeError
  | n :: _ => PRNGKeyArray_len keys = Ok n
  end.
Proof.
  intros H. apply key_array_init_inv in H.
  destruct H as (-> & Hk & Hs & _).
  destruct (keys_shape (mk_key_array p a)) as [ | n rest ] eqn:E.
  - unfold PRNGKeyArray_len, _is_scalar, arr_ndim. cbn [impl _base_array].
    rewrite Hs. cbn [app]. rewrite Nat.eqb_refl. reflexivity.
  - unfold PRNGKeyArray_len.
    rewrite (key_array_not_scalar p a n rest Hs).
    unfold ndarray_len. cbn [_base_array]. rewrite Hs. reflexivity.
Qed.

Lemma key_array_len_witness :
  let a := mk_ndarray uint32 [3%N; 2%N] [1; 2; 3; 4; 5; 6] in
  let keys := mk_key_array threefry_prng_impl a in
  PRNGKeyArray_init threefry_prng_impl a = Ok keys
  /\ PRNGKeyArray_len keys = Ok 3%N.
Proof.
  intros a keys.
  assert (H : PRNGKeyArray_init threefry_prng_impl a = Ok keys)
    by reflexivity.
  split; [ exact H | ].
  exact (key_array_len threefry_prng_impl a keys H).
Defined.

Lemma mapM_map_ok {A B : Type} (f : A -> result B) (g : A -> B)
  (l : list A) :
  (forall a, In a l -> f a = Ok (g a)) -> mapM f l = Ok (map g l).
Proof.
  induction l as [ | a l IH ]; intros H; cbn [mapM map].
  - reflexivity.
  - rewrite (H a (or_introl eq_refl)), IH; [ reflexivity | ].
    intros b Hb. apply H. right. exact Hb.
Qed.

(** Cutting a list into [n] rows and gluing the rows gives the list
    back. *)
Lemma concat_rows (row n : nat) (xs : list Z) :
  List.length xs = (n * row)%nat ->
  List.concat (map (fun i => firstn row (skipn (i * row) xs)) (seq 0 n)) = xs.
Proof.
  revert xs. induction n as [ | n IH ]; intros xs Hl.
  - cbn in *. symmetry. apply length_zero_iff_nil. exact Hl.
  - cbn [seq map List.concat]. rewrite <- seq_shift, map_map.
    cbn [Nat.mul skipn].
    rewrite (map_ext _ (fun i => firstn row (skipn (i * row) (skipn row xs)))).
    2: { intros i. rewrite skipn_skipn. f_equal. f_equal. lia. }
    rewrite IH by (rewrite length_skipn, Hl; cbn [Nat.mul]; lia).
    apply firstn_skipn.
Qed.

(** X12: iterating over a constructed, non-scalar key array with a
    well-formed base array never fails: it yields one key array per
    index of the leading axis, each of the same implementation, of the
    remaining shape and well formed, and the base data of the yielded
    keys, in order, are the base data of the array.  Iterating over a
    scalar key array is a type error. *)
Theorem key_array_iter (p : PRNGImpl.t) (a : ndarray) (keys : PRNGKeyArray) :
  PRNGKeyArray_init p a = Ok keys ->
  well_formed a ->
  match keys_shape keys with
  | [] => PRNGKeyArray_iter keys = Err TypeError
  | n :: rest =>
      exists rows,
        PRNGKeyArray_iter keys = Ok rows
        /\ List.length rows = N.to_nat n
        /\ Forall (fun k => k.(impl) = p
                            /\ keys_shape k = rest
                            /\ well_formed k.(_base_array)) rows
        /\ List.concat (map (fun k => k.(_base_array).(arr_data)) rows)
           = a.(arr_data)
  end.
Proof.
  intros H Hwf. apply key_array_init_inv in H.
  destruct H as (-> & Hk & Hs & Hd).
  destruct (keys_shape (mk_key_array p a)) as [ | n rest ] eqn:E.
  - unfold PRNGKeyArray_iter, _is_scalar, arr_ndim. cbn [impl _base_array].
    rewrite Hs. cbn [app]. rewrite Nat.eqb_refl. reflexivity.
  - unfold PRNGKeyArray_iter.
    rewrite (key_array_not_scalar p a n rest Hs).
    unfold ndarray_iter. cbn [impl _base_array]. rewrite Hs.
    cbn [app bind].
    set (ks := PRNGImpl.key_shape p) in *.
    set (row := N.to_nat (prod (rest ++ ks))).
    set (mk_row := fun i => mk_ndarray (arr_dtype a) (rest ++ ks)
                              (firstn row (skipn (i * row) (arr_data a)))).
    assert (Hlen : List.length (arr_data a) = (N.to_nat n * row)%nat).
    { unfold well_formed, arr_size in Hwf. apply len_eq in Hwf.
      rewrite Hwf, Hs. cbn [app prod fold_right]. subst row.
      unfold prod. lia. }
    rewrite (mapM_map_ok _ (mk_key_array p) (map mk_row (seq 0 (N.to_nat n)))).
    2: { intros r Hr. apply in_map_iff in Hr. destruct Hr as (i & <- & _).
         unfold PRNGKeyArray_init.
         assert (Hc : _check_prng_key_data p (mk_row i) = Ok tt).
         { apply check_prng_key_data_spec. split; [ exact Hk | ].
           split; [ exists rest; reflexivity | exact Hd ]. }
         rewrite Hc. reflexivity. }
    eexists. split; [ reflexivity | ].
    split; [ rewrite !length_map, length_seq; reflexivity | ].
    split.
    + apply Forall_map, Forall_map, Forall_forall. intros i Hi.
      apply in_seq in Hi. cbn [impl _base_array].
      split; [ reflexivity | ]. split.
      * unfold keys_shape, base_arr_shape_to_keys_shape.
        cbn [impl _base_array arr_shape]. fold ks.
        apply slice_drop_last_app. exact Hk.
      * unfold well_formed, arr_size, len, mk_row.
        cbn [arr_data arr_shape].
        rewrite length_firstn, length_skipn, Hlen.
        fold row. subst row.
        rewrite Nat.min_l by nia. apply N2Nat.id.
    + rewrite !map_map. cbn [_base_array]. unfold mk_row. cbn [arr_data].
      apply concat_rows. exact Hlen.
Qed.

Lemma key_array_iter_witness :
  let a := mk_ndarray uint32 [3%N; 2%N] [1; 2; 3; 4; 5; 6] in
  let keys := mk_key_array threefry_prng_impl a in
  PRNGKeyArray_init threefry_prng_impl a = Ok keys /\ well_formed a
  /\ exists rows,
       PRNGKeyArray_iter keys = Ok rows
       /\ List.length rows = N.to_nat 3
       /\ Forall (fun k => k.(impl) = threefry_prng_impl
                           /\ keys_shape k = []
                           /\ well_formed k.(_base_array)) rows
       /\ List.concat (map (fun k => k.(_base_array).(arr_data)) rows)
          = a.(arr_data).
Proof.
  intros a keys.
  assert (H : PRNGKeyArray_init threefry_prng_impl a = Ok keys)
    by reflexivity.
  assert (Hw : well_formed a) by reflexivity.
  split; [ exact H | ]. split; [ exact Hw | ].
  exact (key_array_iter threefry_prng_impl a keys H Hw).
Defined.

(** ** The vectorisation layer, element by element *)

Lemma mapM_nth_error {A B : Type} (h : A -> result B) (l : list A)
  (l' : list B) (i : nat) :
  mapM h l = Ok l' ->
  (forall b, nth_error l' i = Some b ->
     exists a, nth_error l i = Some a /\ h a = Ok b)
  /\ (forall a, nth_error l i = Some a ->
     exists b, nth_error l' i = Some b /\ h a = Ok b).
Proof.
  revert l' i. induction l as [ | a0 l IH ]; intros l' i; cbn [mapM].
  - intros E. injection E as <-.
    split; intros z Hz; destruct i; discriminate Hz.
  - destruct (h a0) as [b0 | e] eqn:E0; cbn [bind]; [ | discriminate ].
    destruct (mapM h l) as [bs | e] eqn:E1; cbn [bind]; [ | discriminate ].
    intros E. injection E as <-.
    destruct i as [ | i ]; cbn [nth_error].
    + split; intros z Hz; injection Hz as <-; eexists; split;
        [ reflexivity | exact E0 | reflexivity | exact E0 ].
    + apply (IH bs i eq_refl).
Qed.

Lemma nth_error_combine {A B : Type} (la : list A) (lb : list B) (i : nat)
  (a : A) (b : B) :
  nth_error (combine la lb) i = Some (a, b) ->
  nth_error la i = Some a /\ nth_error lb i = Some b.
Proof.
  revert lb i. induction la as [ | a0 la IH ]; intros lb i; cbn [combine].
  - destruct i; discriminate.
  - destruct lb as [ | b0 lb ]; [ destruct i; discriminate | ].
    destruct i as [ | i ]; cbn [nth_error].
    + intros E. injection E as -> ->. split; reflexivity.
    + apply IH.
Qed.

(** Every element of a mapped array is the image of the element at
    the same index, and every element has its image. *)
Lemma map_at_depth_index (n : nat) (f : nd -> result nd) (x r : nd)
  (idx : list nat) :
  map_at_depth n f x = Ok r ->
  List.length idx = n ->
  (forall ri, nd_index idx r = Some ri ->
     exists xi, nd_index idx x = Some xi /\ f xi = Ok ri)
  /\ (forall xi, nd_index idx x = Some xi ->
     exists ri, nd_index idx r = Some ri /\ f xi = Ok ri).
Proof.
  revert x r idx. induction n as [ | n IH ]; intros x r idx E Hl.
  - destruct idx; [ | discriminate Hl ]. cbn [map_at_depth nd_index] in *.
    split; intros z Hz; injection Hz as <-; eexists; split;
      [ reflexivity | exact E | reflexivity | exact E ].
  - destruct idx as [ | i idx ]; [ discriminate Hl | ].
    injection Hl as Hl. cbn [map_at_depth] in E.
    destruct x as [a | l]; [ discriminate E | ].
    destruct (mapM (map_at_depth n f) l) as [l' | e] eqn:Em;
      cbn [bind] in E; [ | discriminate E ].
    injection E as <-. cbn [nd_index].
    destruct (mapM_nth_error _ l l' i Em) as [Hb Hf].
    split.
    + intros ri Hri.
      destruct (nth_error l' i) as [r' | ] eqn:En; [ | discriminate Hri ].
      destruct (Hb r' eq_refl) as (x' & Hx' & Hm). rewrite Hx'.
      apply (proj1 (IH x' r' idx Hm Hl) ri Hri).
    + intros xi Hxi.
      destruct (nth_error l i) as [x' | ] eqn:En; [ | discriminate Hxi ].
      destruct (Hf x' eq_refl) as (r' & Hr' & Hm). rewrite Hr'.
      apply (proj2 (IH x' r' idx Hm Hl) xi Hxi).
Qed.

(** X13: [iterated_vmap_unary(n, f)] applies [f] independently along
    the leading [n] axes: when it returns, the element of the result
    at every index of length [n] is [f] of the element of the argument
    at that index, and every element of the argument has its image in
    the result. *)
Theorem iterated_vmap_unary_elementwise (n : nat) (f : nd -> result nd)
  (x r : nd) (idx : list nat) :
  iterated_vmap_unary n f x = Ok r ->
  List.length idx = n ->
  (forall ri, nd_index idx r = Some ri ->
     exists xi, nd_index idx x = Some xi /\ f xi = Ok ri)
  /\ (forall xi, nd_index idx x = Some xi ->
     exists ri, nd_index idx r = Some ri /\ f xi = Ok ri).
Proof.
  intros E. rewrite iterated_vmap_unary_depth in E.
  apply map_at_depth_index. exact E.
Qed.

Lemma iterated_vmap_unary_elementwise_witness :
  let f : nd -> result nd :=
    fun x => match x with
             | Leaf a => Ok (Leaf (a ++ a))
             | Node _ => Err TypeError
             end in
  let x := Node [Node [Leaf [1]; Leaf [2]]; Node [Leaf [3]; Leaf [4]]] in
  let r := Node [Node [Leaf [1; 1]; Leaf [2; 2]];
                 Node [Leaf [3; 3]; Leaf [4; 4]]] in
  iterated_vmap_unary 2 f x = Ok r /\ List.length [1; 0]%nat = 2%nat
  /\ forall xi, nd_index [1; 0]%nat x = Some xi ->
        exists ri, nd_index [1; 0]%nat r = Some ri /\ f xi = Ok ri.
Proof.
  intros f x r.
  assert (E : iterated_vmap_unary 2 f x = Ok r) by reflexivity.
  assert (Hl : List.length [1; 0]%nat = 2%nat) by reflexivity.
  split; [ exact E | ]. split; [ exact Hl | ].
  exact (proj2 (iterated_vmap_unary_elementwise 2 f x r [1; 0]%nat E Hl)).
Defined.

(** ** Broadcasting of two operands of one rank *)

Lemma bcast_axes_app (l l' : list (N * N)) (f : binary) :
  bcast_axes (l ++ l') f = (g <- bcast_axes l f ;; bcast_axes l' g).
Proof.
  revert f. induction l as [ | [s1 s2] l IH ]; intros f; cbn [app bcast_axes].
  - reflexivity.
  - destruct (s1 =? s2)%N; [ apply IH | ].
    destruct ((s1 =? 1)%N || (s2 =? 1)%N); [ apply IH | reflexivity ].
Qed.

Lemma compatible_dec (s1 s2 : N) :
  compatible (s1, s2) <->
  ((s1 =? s2)%N || ((s1 =? 1)%N || (s2 =? 1)%N)) = true.
Proof.
  unfold compatible. cbn [fst snd].
  rewrite !orb_true_iff, !N.eqb_eq. reflexivity.
Qed.

(** The loop returns a function exactly on compatible axes, and fails
    its assertion otherwise. *)
Lemma bcast_axes_outcome (axes : list (N * N)) (f : binary) :
  (Forall compatible axes -> exists g, bcast_axes axes f = Ok g)
  /\ (~ Forall compatible axes -> bcast_axes axes f = Err AssertionError).
Proof.
  revert f. induction axes as [ | [s1 s2] axes IH ]; intros f.
  - split; [ intros _; exists f; reflexivity | ].
    intros H. contradiction H. constructor.
  - cbn [bcast_axes].
    destruct ((s1 =? s2)%N || ((s1 =? 1)%N || (s2 =? 1)%N)) eqn:E.
    + assert (Hc : compatible (s1, s2)) by (apply compatible_dec; exact E).
      assert (Hstep : exists f',
                (if (s1 =? s2)%N then bcast_axes axes (vmap2 f)
                 else if (s1 =? 1)%N || (s2 =? 1)%N
                      then bcast_axes axes (squeeze_vmap f (s1 =? 1)%N)
                      else Err AssertionError) = bcast_axes axes f').
      { destruct (s1 =? s2)%N; [ eexists; reflexivity | ].
        cbn [orb] in E. rewrite E. eexists; reflexivity. }
      destruct Hstep as (f' & ->).
      split.
      * intros H. inversion H; subst. apply (proj1 (IH f')). assumption.
      * intros H. apply (proj2 (IH f')). intros Hf. apply H.
        constructor; assumption.
    + split.
      * intros H. inversion H as [ | ? ? Hc _ ]; subst.
        apply compatible_dec in Hc. congruence.
      * intros _. apply orb_false_iff in E. destruct E as [-> ->].
        reflexivity.
Qed.

(** X14: for two shapes of one rank, [iterated_vmap_binary_bcast]
    returns a function exactly when, axis by axis, the two sizes are
    equal or one of them is one; with two sizes that differ and are
    both other than one it fails its assertion. *)
Theorem iterated_vmap_binary_bcast_defined (shape1 shape2 : list N)
  (f : binary) :
  List.length shape1 = List.length shape2 ->
  ((exists g, iterated_vmap_binary_bcast shape1 shape2 f = Ok g)
   <-> Forall compatible (combine shape1 shape2))
  /\ (~ Forall compatible (combine shape1 shape2) ->
      iterated_vmap_binary_bcast shape1 shape2 f = Err AssertionError).
Proof.
  intros Hl.
  assert (Hrev : Forall compatible (rev (combine shape1 shape2))
                 <-> Forall compatible (combine shape1 shape2)).
  { split; intros H; [ rewrite <- rev_involutive | ]; apply Forall_rev, H. }
  assert (E : iterated_vmap_binary_bcast shape1 shape2 f
              = bcast_axes (rev (combine shape1 shape2)) f).
  { unfold iterated_vmap_binary_bcast.
    destruct shape1 as [ | a s1 ], shape2 as [ | b s2 ];
      try discriminate Hl; [ reflexivity | ].
    cbn [List.length Nat.eqb andb orb]. cbn [List.length] in Hl.
    injection Hl as Hl. rewrite Hl, Nat.eqb_refl. reflexivity. }
  rewrite E.
  destruct (bcast_axes_outcome (rev (combine shape1 shape2)) f) as [Hok Herr].
  split.
  - split.
    + intros [g Hg]. apply Hrev.
      destruct (Forall_dec compatible
                  (fun ax => ltac:(
                     destruct ax as [s1 s2];
                     destruct ((s1 =? s2)%N || ((s1 =? 1)%N || (s2 =? 1)%N))
                       eqn:Ec;
                     [ left; apply compatible_dec; exact Ec
                     | right; intros Hc; apply compatible_dec in Hc;
                       congruence ]))
                  (rev (combine shape1 shape2))) as [Hy | Hn];
        [ exact Hy | ].
      rewrite (Herr Hn) in Hg. discriminate Hg.
    + intros H. apply Hok, Hrev, H.
  - intros H. apply Herr. intros Hc. apply H, Hrev, Hc.
Qed.

Lemma iterated_vmap_binary_bcast_defined_witness :
  let f : binary := fun x _ => Ok x in
  List.length [2%N; 3%N] = List.length [2%N; 4%N]
  /\ ~ Forall compatible (combine [2%N; 3%N] [2%N; 4%N])
  /\ iterated_vmap_binary_bcast [2%N; 3%N] [2%N; 4%N] f = Err AssertionError.
Proof.
  intros f.
  assert (Hl : List.length [2%N; 3%N] = List.length [2%N; 4%N])
    by reflexivity.
  assert (Hn : ~ Forall compatible (combine [2%N; 3%N] [2%N; 4%N])).
  { intros H. inversion H as [ | ? ? _ H' ]; subst.
    inversion H' as [ | ? ? Hc _ ]; subst.
    destruct Hc as [Hc | [Hc | Hc]]; discriminate Hc. }
  split; [ exact Hl | ]. split; [ exact Hn | ].
  exact (proj2 (iterated_vmap_binary_bcast_defined [2%N; 3%N] [2%N; 4%N]
                  f Hl) Hn).
Defined.

Lemma vmap1_ext (f g : nd -> result nd) (x : nd) :
  (forall a, f a = g a) -> vmap1 f x = vmap1 g x.
Proof.
  intros H. destruct x as [a | l]; cbn [vmap1]; [ reflexivity | ].
  rewrite (mapM_ext f g l H). reflexivity.
Qed.

Lemma vmap2_ext (f g : binary) (x y : nd) :
  (forall a b, f a b = g a b) -> vmap2 f x y = vmap2 g x y.
Proof.
  intros H. destruct x as [a | lx], y as [b | ly]; cbn [vmap2];
    try reflexivity.
  destruct (List.length lx =? List.length ly)%nat; [ | reflexivity ].
  rewrite (mapM_ext _ (fun p => g (fst p) (snd p)) (combine lx ly));
    [ reflexivity | ].
  intros p. apply H.
Qed.

Lemma squeeze_vmap_ext (f g : binary) (left : bool) (x y : nd) :
  (forall a b, f a b = g a b) ->
  squeeze_vmap f left x y = squeeze_vmap g left x y.
Proof.
  intros H. unfold squeeze_vmap, vmap_none_0, vmap_0_none.
  destruct left.
  - destruct (squeeze0 x) as [x' | e]; cbn [bind]; [ | reflexivity ].
    apply vmap1_ext. intros b. apply H.
  - destruct (squeeze0 y) as [y' | e]; cbn [bind]; [ | reflexivity ].
    apply vmap1_ext. intros a. apply H.
Qed.

(** The function built from the trailing axis inward handles the
    leading axis first. *)
Lemma bcast_axes_rev_outer_first (axes : list (N * N)) (f g : binary) :
  bcast_axes (rev axes) f = Ok g ->
  forall x y, g x y = bcast_outer_first axes f x y.
Proof.
  revert g. induction axes as [ | [s1 s2] axes IH ]; intros g.
  - cbn [rev bcast_axes bcast_outer_first]. intros E. injection E as <-.
    reflexivity.
  - cbn [rev]. rewrite bcast_axes_app.
    destruct (bcast_axes (rev axes) f) as [g' | e]; cbn [bind];
      [ | discriminate ].
    specialize (IH g' eq_refl).
    cbn [bcast_axes bcast_outer_first].
    destruct (s1 =? s2)%N.
    + intros E. injection E as <-. intros x y. apply vmap2_ext, IH.
    + destruct ((s1 =? 1)%N || (s2 =? 1)%N); [ | discriminate ].
      intros E. injection E as <-. intros x y. apply squeeze_vmap_ext, IH.
Qed.

Lemma squeeze0_inv (x x' : nd) : squeeze0 x = Ok x' -> x = Node [x'].
Proof.
  destruct x as [a | [ | x0 [ | x1 l ]]]; cbn [squeeze0]; try discriminate.
  intros E. injection E as <-. reflexivity.
Qed.

Lemma vmap1_index (h : nd -> result nd) (x r ri : nd) (i : nat)
  (idx : list nat) :
  vmap1 h x = Ok r ->
  nd_index (i :: idx) r = Some ri ->
  exists l x' r', x = Node l /\ nth_error l i = Some x'
    /\ h x' = Ok r' /\ nd_index idx r' = Some ri.
Proof.
  destruct x as [a | l]; cbn [vmap1]; [ discriminate | ].
  destruct (mapM h l) as [l' | e] eqn:Em; cbn [bind]; [ | discriminate ].
  intros E Hri. injection E as <-. cbn [nd_index] in Hri.
  destruct (nth_error l' i) as [r' | ] eqn:En; [ | discriminate Hri ].
  destruct (proj1 (mapM_nth_error h l l' i Em) r' En) as (x' & Hx & Hh).
  exists l, x', r'. repeat split; assumption.
Qed.

(** Element by element: the broadcast reads, along every axis, the
    element at the index itself, or at zero on the side that is
    squeezed. *)
Lemma bcast_outer_first_index (axes : list (N * N)) (f : binary)
  (x y r ri : nd) (idx : list nat) :
  bcast_outer_first axes f x y = Ok r ->
  List.length idx = List.length axes ->
  nd_index idx r = Some ri ->
  exists xi yi,
    nd_index (clip_left axes idx) x = Some xi
    /\ nd_index (clip_right axes idx) y = Some yi
    /\ f xi yi = Ok ri.
Proof.
  revert x y r idx.
  induction axes as [ | [s1 s2] axes IH ]; intros x y r idx E Hl Hri.
  - destruct idx; [ | discriminate Hl ].
    cbn [bcast_outer_first clip_left clip_right nd_index] in *.
    injection Hri as <-. exists x, y. repeat split. exact E.
  - destruct idx as [ | i idx ]; [ discriminate Hl | ].
    injection Hl as Hl.
    cbn [bcast_outer_first clip_left clip_right] in *.
    destruct (s1 =? s2)%N; cbn [negb andb].
    + (* both operands are mapped *)
      destruct x as [a | lx], y as [b | ly]; cbn [vmap2] in E;
        try discriminate E.
      destruct (List.length lx =? List.length ly)%nat; [ | discriminate E ].
      destruct (mapM _ (combine lx ly)) as [l' | e] eqn:Em;
        cbn [bind] in E; [ | discriminate E ].
      injection E as <-. cbn [nd_index] in Hri |- *.
      destruct (nth_error l' i) as [r' | ] eqn:En; [ | discriminate Hri ].
      destruct (proj1 (mapM_nth_error _ _ l' i Em) r' En)
        as ([x' y'] & Hc & Hh).
      apply nth_error_combine in Hc. destruct Hc as [-> ->].
      cbn [fst snd] in Hh. apply (IH x' y' r' idx Hh Hl Hri).
    + unfold squeeze_vmap, vmap_none_0, vmap_0_none in E.
      destruct (s1 =? 1)%N; cbn [negb].
      * (* the left operand is squeezed *)
        destruct (squeeze0 x) as [x' | e] eqn:Es; cbn [bind] in E;
          [ | discriminate E ].
        apply squeeze0_inv in Es. subst x.
        destruct (vmap1_index _ y r ri i idx E Hri)
          as (ly & y' & r' & -> & Hy & Hh & Hr').
        cbn [nd_index nth_error]. rewrite Hy.
        apply (IH x' y' r' idx Hh Hl Hr').
      * (* the right operand is squeezed *)
        destruct (squeeze0 y) as [y' | e] eqn:Es; cbn [bind] in E;
          [ | discriminate E ].
        apply squeeze0_inv in Es. subst y.
        destruct (vmap1_index _ x r ri i idx E Hri)
          as (lx & x' & r' & -> & Hx & Hh & Hr').
        cbn [nd_index nth_error]. rewrite Hx.
        apply (IH x' y' r' idx Hh Hl Hr').
Qed.

(** X15: for two shapes of one rank, every element of the result of
    the function that [iterated_vmap_binary_bcast] returns is [f] of
    the elements of the two operands at the same index, where along an
    axis with different sizes the operand of size one is read at
    position zero: trailing-aligned broadcasting. *)
Theorem iterated_vmap_binary_bcast_elementwise (shape1 shape2 : list N)
  (f g : binary) (x y r ri : nd) (idx : list nat) :
  List.length shape1 = List.length shape2 ->
  iterated_vmap_binary_bcast shape1 shape2 f = Ok g ->
  g x y = Ok r ->
  List.length idx = List.length shape1 ->
  nd_index idx r = Some ri ->
  exists xi yi,
    nd_index (clip_left (combine shape1 shape2) idx) x = Some xi
    /\ nd_index (clip_right (combine shape1 shape2) idx) y = Some yi
    /\ f xi yi = Ok ri.
Proof.
  intros Hl Hg E Hi Hri.
  assert (Hb : bcast_axes (rev (combine shape1 shape2)) f = Ok g).
  { unfold iterated_vmap_binary_bcast in Hg.
    destruct shape1 as [ | a s1 ], shape2 as [ | b s2 ];
      try discriminate Hl; [ exact Hg | ].
    cbn [List.length Nat.eqb andb orb] in Hg. cbn [List.length] in Hl.
    injection Hl as Hl. rewrite Hl, Nat.eqb_refl in Hg. exact Hg. }
  rewrite (bcast_axes_rev_outer_first _ f g Hb) in E.
  apply (bcast_outer_first_index _ f x y r ri idx E); [ | exact Hri ].
  rewrite length_combine, <- Hl, Nat.min_id. exact Hi.
Qed.

Lemma iterated_vmap_binary_bcast_elementwise_witness :
  let f : binary :=
    fun x y =>
      match x, y with
      | Leaf a, Leaf b => Ok (Leaf (a ++ b))
      | _, _ => Err TypeError
      end in
  let keys := Node [Node [Leaf [10]; Leaf [20]]] in
  let msgs := Node [Node [Leaf [1]]; Node [Leaf [2]]; Node [Leaf [3]]] in
  let r := Node [Node [Leaf [10; 1]; Leaf [20; 1]];
                 Node [Leaf [10; 2]; Leaf [20; 2]];
                 Node [Leaf [10; 3]; Leaf [20; 3]]] in
  exists g,
    iterated_vmap_binary_bcast [1%N; 2%N] [3%N; 1%N] f = Ok g
    /\ g keys msgs = Ok r
    /\ exists xi yi,
         nd_index (clip_left (combine [1%N; 2%N] [3%N; 1%N]) [2; 1]%nat) keys
           = Some xi
         /\ nd_index (clip_right (combine [1%N; 2%N] [3%N; 1%N]) [2; 1]%nat)
              msgs = Some yi
         /\ f xi yi = Ok (Leaf [20; 3]).
Proof.
  intros f keys msgs r.
  eexists. split; [ reflexivity | ]. split; [ reflexivity | ].
  refine (iterated_vmap_binary_bcast_elementwise [1%N; 2%N] [3%N; 1%N]
            f _ keys msgs r (Leaf [20; 3]) [2; 1]%nat
            eq_refl eq_refl eq_refl eq_refl eq_refl).
Defined.

(** ** The RngBitGenerator implementations *)

(** The key that [threefry_seed] returns on a scalar integer. *)
Lemma threefry_seed_ok (seed : ndarray) :
  seed.(arr_shape) = [] -> is_integer_dtype seed.(arr_dtype) = true ->
  exists s1 s2,
    threefry_seed seed = Ok (mk_ndarray uint32 [2%N] [s1; s2])
    /\ U32.in_range s1 /\ U32.in_range s2.
Proof.
  intros Hs Hi. unfold threefry_seed. rewrite Hs, Hi. cbn [negb app].
  eexists. eexists. split; [ reflexivity | ].
  unfold convert_to_uint32. split; apply wrap_in_range.
Qed.

(** X16: [_rbg_seed] asserts a scalar seed and raises a type error on
    a scalar that is no integer; on a scalar integer it returns the
    Threefry key of the seed twice over, four 32-bit words in an array
    that both generator-backed implementations accept as key data. *)
Theorem rbg_seed_doubles_threefry_seed (seed : ndarray) :
  (seed.(arr_shape) <> [] -> _rbg_seed seed = Err AssertionError)
  /\ (seed.(arr_shape) = [] -> is_integer_dtype seed.(arr_dtype) = false ->
      _rbg_seed seed = Err TypeError)
  /\ (seed.(arr_shape) = [] -> is_integer_dtype seed.(arr_dtype) = true ->
      exists s1 s2 key,
        threefry_seed seed = Ok (mk_ndarray uint32 [2%N] [s1; s2])
        /\ _rbg_seed seed = Ok key
        /\ key = mk_ndarray uint32 [4%N] [s1; s2; s1; s2]
        /\ Forall U32.in_range key.(arr_data)
        /\ _check_prng_key_data rbg_prng_impl key = Ok tt
        /\ _check_prng_key_data unsafe_rbg_prng_impl key = Ok tt).
Proof.
  split; [ | split ].
  - intros Hs. unfold _rbg_seed.
    destruct (arr_shape seed); [ contradiction | reflexivity ].
  - intros Hs Hi. unfold _rbg_seed, threefry_seed. rewrite Hs, Hi.
    reflexivity.
  - intros Hs Hi.
    destruct (threefry_seed_ok seed Hs Hi) as (s1 & s2 & E & H1 & H2).
    exists s1, s2. eexists. split; [ exact E | ].
    unfold _rbg_seed. rewrite Hs, E. cbn [bind concatenate_1d arr_shape].
    split; [ reflexivity | ].
    cbn [arr_dtype arr_data app]. change (2 + 2)%N with 4%N.
    split; [ reflexivity | ].
    split; [ repeat (apply Forall_cons; [ assumption | ]);
             apply Forall_nil | ].
    split; reflexivity.
Qed.

Lemma rbg_seed_doubles_threefry_seed_witness :
  let seed := mk_ndarray int64 [] [2 ^ 32 + 5] in
  seed.(arr_shape) = [] /\ is_integer_dtype seed.(arr_dtype) = true
  /\ exists s1 s2 key,
       threefry_seed seed = Ok (mk_ndarray uint32 [2%N] [s1; s2])
       /\ _rbg_seed seed = Ok key
       /\ key = mk_ndarray uint32 [4%N] [s1; s2; s1; s2]
       /\ Forall U32.in_range key.(arr_data)
       /\ _check_prng_key_data rbg_prng_impl key = Ok tt
       /\ _check_prng_key_data unsafe_rbg_prng_impl key = Ok tt.
Proof.
  intros seed.
  assert (Hs : seed.(arr_shape) = []) by reflexivity.
  assert (Hi : is_integer_dtype seed.(arr_dtype) = true) by reflexivity.
  split; [ exact Hs | ]. split; [ exact Hi | ].
  exact (proj2 (proj2 (rbg_seed_doubles_threefry_seed seed)) Hs Hi).
Defined.

(** The two rows of a four-word key. *)
Lemma rbg_key_rows (a b c d : Z) :
  let key := mk_ndarray uint32 [4%N] [a; b; c; d] in
  reshape key.(arr_dtype) key.(arr_data) [2%N; 2%N]
  = Ok (mk_ndarray uint32 [2%N; 2%N] [a; b; c; d])
  /\ raw_threefry_key
       (key_row (mk_ndarray uint32 [2%N; 2%N] [a; b; c; d]) 0) a b
  /\ raw_threefry_key
       (key_row (mk_ndarray uint32 [2%N; 2%N] [a; b; c; d]) 1) c d.
Proof. repeat split. Qed.

Lemma length_flat_map_uniform {A : Type} (g : A -> list Z) (k : nat)
  (l : list A) :
  (forall a, In a l -> List.length (g a) = k) ->
  List.length (flat_map g l) = (List.length l * k)%nat.
Proof.
  induction l as [ | a l IH ]; intros Hk; cbn [flat_map List.length].
  - reflexivity.
  - rewrite length_app, (Hk a (or_introl eq_refl)), IH; [ lia | ].
    intros b Hb. apply Hk. right. exact Hb.
Qed.

Lemma firstn_skipn_flat_map {A : Type} (g : A -> list Z) (k : nat)
  (l : list A) (d : A) (i : nat) :
  (forall a, In a l -> List.length (g a) = k) ->
  (i < List.length l)%nat ->
  firstn k (skipn (i * k) (flat_map g l)) = g (nth i l d).
Proof.
  revert i. induction l as [ | a l IH ]; intros i Hk Hi.
  - cbn in Hi. lia.
  - cbn [flat_map]. destruct i as [ | i ].
    + cbn [Nat.mul skipn nth].
      rewrite firstn_app, <- (Hk a (or_introl eq_refl)), Nat.sub_diag.
      cbn [firstn]. rewrite firstn_all, app_nil_r. reflexivity.
    + cbn [nth].
      replace (S i * k)%nat with (List.length (g a) + i * k)%nat
        by (rewrite (Hk a (or_introl eq_refl)); lia).
      rewrite skipn_app, skipn_all2 by lia.
      replace (List.length (g a) + i * k - List.length (g a))%nat
        with (i * k)%nat by lia.
      cbn [app]. apply IH; [ | cbn in Hi; lia ].
      intros b Hb. apply Hk. right. exact Hb.
Qed.

(** X17: [_rbg_split] of a four-word [uint32] key splits each two-word
    half with [threefry_split] and pairs the results: the outcome has
    shape [(num, 4)], and its row [i] is child [i] of the first half
    followed by child [i] of the second half. *)
Theorem rbg_split_halves (ur : bool) (a b c d : Z) (num : N) :
  let key := mk_ndarray uint32 [4%N] [a; b; c; d] in
  exists s0 s1 keys,
    threefry_split ur (mk_ndarray uint32 [2%N] [a; b]) num = Ok s0
    /\ threefry_split ur (mk_ndarray uint32 [2%N] [c; d]) num = Ok s1
    /\ _rbg_split ur key num = Ok keys
    /\ keys.(arr_shape) = [num; 4%N]
    /\ keys.(arr_dtype) = uint32
    /\ well_formed keys
    /\ forall i, (i < N.to_nat num)%nat ->
         firstn 4 (skipn (i * 4) keys.(arr_data))
         = (key_row s0 i).(arr_data) ++ (key_row s1 i).(arr_data).
Proof.
  intros key.
  destruct (rbg_key_rows a b c d) as (Hre & Hr0 & Hr1).
  pose proof (threefry_split_eq ur _ a b num Hr0) as E0.
  pose proof (threefry_split_eq ur _ c d num Hr1) as E1.
  set (s0 := mk_ndarray uint32 [num; 2%N]
               (threefry_2x32_flat ur a b (arr_data (iota (num * 2))))) in *.
  set (s1 := mk_ndarray uint32 [num; 2%N]
               (threefry_2x32_flat ur c d (arr_data (iota (num * 2))))) in *.
  assert (Hrow : forall i, In i (seq 0 (N.to_nat num)) ->
            List.length ((key_row s0 i).(arr_data)
                         ++ (key_row s1 i).(arr_data)) = 4%nat).
  { intros i Hi. apply in_seq in Hi. unfold key_row. cbn [arr_data].
    rewrite length_app, !length_firstn, !length_skipn.
    subst s0 s1. cbn [arr_data].
    rewrite !length_threefry_2x32_flat, !length_iota. lia. }
  exists s0, s1. eexists.
  split; [ exact E0 | ]. split; [ exact E1 | ].
  set (g := fun i => (key_row s0 i).(arr_data) ++ (key_row s1 i).(arr_data))
    in *.
  assert (Hlen : List.length (flat_map g (seq 0 (N.to_nat num)))
                 = (N.to_nat num * 4)%nat).
  { rewrite (length_flat_map_uniform g 4 _ Hrow), length_seq. reflexivity. }
  split.
  { unfold _rbg_split. subst key. cbv zeta in Hre. rewrite Hre. cbn [bind].
    unfold threefry_split in E0, E1. rewrite E0, E1. cbn [bind].
    fold g. unfold reshape, len. rewrite Hlen.
    cbn [prod fold_right arr_dtype].
    assert (Hq : (N.of_nat (N.to_nat num * 4) =? num * (4 * 1))%N = true)
      by (apply N.eqb_eq; lia).
    rewrite Hq. reflexivity. }
  cbn [arr_shape arr_dtype arr_data]. fold g.
  split; [ reflexivity | ]. split; [ reflexivity | ].
  split.
  { unfold well_formed, arr_size, len. cbn [arr_data arr_shape]. fold g.
    rewrite Hlen. cbn [prod fold_right]. lia. }
  intros i Hi.
  rewrite (firstn_skipn_flat_map g 4 (seq 0 (N.to_nat num)) 0%nat i Hrow)
    by (rewrite length_seq; exact Hi).
  rewrite seq_nth by exact Hi. reflexivity.
Qed.

Lemma rbg_split_zero_key_rows :
  exists keys,
    _rbg_split true (mk_ndarray uint32 [4%N] [0; 0; 0; 0]) 2 = Ok keys
    /\ keys.(arr_data)
       = [4146024105; 967050713; 4146024105; 967050713;
          2718843009; 1272950319; 2718843009; 1272950319].
Proof. eexists. split; vm_compute; reflexivity. Qed.

(** X18: [_rbg_fold_in] asserts scalar data, seeds a counter pair from
    the data as they are (a 64-bit value keeps its high word) and
    hashes that pair under each two-word half of the key; the four
    output words are the result.  For data of at most 32 bits the two
    halves of the result are [threefry_fold_in] of the two halves of
    the key. *)
Theorem rbg_fold_in_halves (ur : bool) (a b c d : Z) (data : ndarray) :
  let key := mk_ndarray uint32 [4%N] [a; b; c; d] in
  (data.(arr_shape) <> [] -> _rbg_fold_in ur key data = Err AssertionError)
  /\ (data.(arr_shape) = [] -> is_integer_dtype data.(arr_dtype) = true ->
      exists s1 s2 out,
        threefry_seed data = Ok (mk_ndarray uint32 [2%N] [s1; s2])
        /\ _rbg_fold_in ur key data = Ok out
        /\ out = mk_ndarray uint32 [4%N]
                   [fst (_threefry2x32_lowering a b s1 s2 ur);
                    snd (_threefry2x32_lowering a b s1 s2 ur);
                    fst (_threefry2x32_lowering c d s1 s2 ur);
                    snd (_threefry2x32_lowering c d s1 s2 ur)]
        /\ (dtype_bits data.(arr_dtype) <= 32 ->
            threefry_fold_in ur (mk_ndarray uint32 [2%N] [a; b]) data
              = Ok (mk_ndarray uint32 [2%N] (firstn 2 out.(arr_data)))
            /\ threefry_fold_in ur (mk_ndarray uint32 [2%N] [c; d]) data
              = Ok (mk_ndarray uint32 [2%N] (skipn 2 out.(arr_data))))).
Proof.
  intros key. split.
  - intros Hs. unfold _rbg_fold_in.
    destruct (arr_shape data); [ contradiction | reflexivity ].
  - intros Hs Hi.
    destruct (threefry_seed_ok data Hs Hi) as (s1 & s2 & E & _ & _).
    destruct (rbg_key_rows a b c d) as (Hre & Hr0 & Hr1).
    exists s1, s2. eexists. split; [ exact E | ].
    assert (Hf : forall k k1 k2, raw_threefry_key k k1 k2 ->
              _threefry_fold_in ur k data
              = Ok (mk_ndarray uint32 [2%N]
                      [fst (_threefry2x32_lowering k1 k2 s1 s2 ur);
                       snd (_threefry2x32_lowering k1 k2 s1 s2 ur)])).
    { intros k k1 k2 Hk. unfold _threefry_fold_in. rewrite E. cbn [bind].
      rewrite (threefry_2x32_eq ur k
                 (mk_ndarray uint32 [2%N] [s1; s2]) k1 k2 Hk eq_refl eq_refl).
      cbn [arr_shape arr_data]. rewrite threefry_2x32_flat_pair.
      reflexivity. }
    split.
    { unfold _rbg_fold_in. rewrite Hs. subst key. cbv zeta in Hre.
      rewrite Hre. cbn [bind].
      rewrite (Hf _ a b Hr0), (Hf _ c d Hr1). cbn [bind]. reflexivity. }
    split; [ reflexivity | ].
    intros Hb. cbn [arr_data firstn skipn].
    assert (Hn : threefry_seed data =
                 Ok (mk_ndarray uint32 [2%N]
                       [0; U32.wrap (nth 0 data.(arr_data) 0)])).
    { apply threefry_seed_narrow; [ exact Hs | exact Hi | left; exact Hb ]. }
    rewrite E in Hn. injection Hn as -> ->.
    split.
    + apply (threefry_fold_in_eq ur _ data a b); [ repeat split | exact Hs ].
    + apply (threefry_fold_in_eq ur _ data c d); [ repeat split | exact Hs ].
Qed.

Lemma rbg_fold_in_halves_witness :
  let key := mk_ndarray uint32 [4%N] [1; 2; 3; 4] in
  let data := mk_ndarray int64 [] [2 ^ 32] in
  data.(arr_shape) = [] /\ is_integer_dtype data.(arr_dtype) = true
  /\ exists s1 s2 out,
       threefry_seed data = Ok (mk_ndarray uint32 [2%N] [s1; s2])
       /\ _rbg_fold_in false key data = Ok out
       /\ out = mk_ndarray uint32 [4%N]
                  [fst (_threefry2x32_lowering 1 2 s1 s2 false);
                   snd (_threefry2x32_lowering 1 2 s1 s2 false);
                   fst (_threefry2x32_lowering 3 4 s1 s2 false);
                   snd (_threefry2x32_lowering 3 4 s1 s2 false)].
Proof.
  intros key data.
  assert (Hs : data.(arr_shape) = []) by reflexivity.
  assert (Hi : is_integer_dtype data.(arr_dtype) = true) by reflexivity.
  split; [ exact Hs | ]. split; [ exact Hi | ].
  destruct (proj2 (rbg_fold_in_halves false 1 2 3 4 data) Hs Hi)
    as (s1 & s2 & out & E & Hf & Ho & _).
  exists s1, s2, out. repeat split; assumption.
Defined.

(** ** unsafe_rbg: fold_in is an exclusive or with a mask *)

Lemma xor_lists_involutive (a b : list Z) :
  List.length a = List.length b ->
  map (fun p => Z.lxor (fst p) (snd p))
      (combine (map (fun p => Z.lxor (fst p) (snd p)) (combine a b)) b) = a.
Proof.
  revert b. induction a as [ | x a IH ]; intros [ | y b ] Hl;
    try discriminate Hl; [ reflexivity | ].
  cbn [combine map fst snd]. injection Hl as Hl. rewrite (IH b Hl).
  rewrite Z.lxor_assoc, Z.lxor_nilpotent, Z.lxor_0_r. reflexivity.
Qed.

Lemma xor_lists_commute (a b c : list Z) :
  List.length a = List.length b -> List.length a = List.length c ->
  map (fun p => Z.lxor (fst p) (snd p))
      (combine (map (fun p => Z.lxor (fst p) (snd p)) (combine a b)) c)
  = map (fun p => Z.lxor (fst p) (snd p))
      (combine (map (fun p => Z.lxor (fst p) (snd p)) (combine a c)) b).
Proof.
  revert b c. induction a as [ | x a IH ]; intros [ | y b ] [ | z c] Hb Hc;
    try discriminate Hb; try discriminate Hc; [ reflexivity | ].
  cbn [combine map fst snd]. injection Hb as Hb. injection Hc as Hc.
  rewrite (IH b c Hb Hc). f_equal.
  rewrite !Z.lxor_assoc, (Z.lxor_comm y z). reflexivity.
Qed.

Lemma length_xor_lists (a b : list Z) :
  List.length a = List.length b ->
  List.length (map (fun p => Z.lxor (fst p) (snd p)) (combine a b))
  = List.length a.
Proof. intros H. rewrite length_map, length_combine. lia. Qed.

Section UnsafeFoldIn.

Variable rng : ndarray -> list N -> dtype -> ndarray * ndarray.

(** The generator returns what it is asked for: [uint32] words in the
    shape [(10, 4)]. *)
Hypothesis rng_shape :
  forall k,
    let bits := snd (rng k [10%N; 4%N] uint32) in
    bits.(arr_shape) = [10%N; 4%N] /\ bits.(arr_dtype) = uint32
    /\ well_formed bits.

(** The mask that [_unsafe_rbg_fold_in] draws from the data alone. *)
Lemma unsafe_fold_in_mask (data : ndarray) :
  data.(arr_shape) = [] -> is_integer_dtype data.(arr_dtype) = true ->
  exists mask,
    List.length mask = 4%nat
    /\ forall kd, List.length kd = 4%nat ->
         _unsafe_rbg_fold_in rng (mk_ndarray uint32 [4%N] kd) data
         = Ok (mk_ndarray uint32 [4%N]
                 (map (fun p => Z.lxor (fst p) (snd p)) (combine kd mask))).
Proof.
  intros Hs Hi.
  destruct (threefry_seed_ok data Hs Hi) as (s1 & s2 & E & _ & _).
  set (seed_key := mk_ndarray uint32 [4%N] [s1; s2; s1; s2]).
  assert (Hseed : _rbg_seed data = Ok seed_key).
  { unfold _rbg_seed. rewrite Hs, E. reflexivity. }
  destruct (rng_shape seed_key) as (Hsh & Hdt & Hwf).
  set (bits := snd (rng seed_key [10%N; 4%N] uint32)) in *.
  assert (Hl : List.length bits.(arr_data) = 40%nat).
  { unfold well_formed, arr_size in Hwf. apply len_eq in Hwf.
    rewrite Hwf, Hsh. reflexivity. }
  exists (firstn 4 (skipn 36 bits.(arr_data))).
  assert (Hm : List.length (firstn 4 (skipn 36 bits.(arr_data))) = 4%nat)
    by (rewrite length_firstn, length_skipn, Hl; reflexivity).
  split; [ exact Hm | ].
  intros kd Hkd. unfold _unsafe_rbg_fold_in. rewrite Hs, Hseed.
  cbn [bind]. fold bits. unfold last_row. rewrite Hsh.
  cbn [N.eqb bind]. unfold bitwise_xor.
  cbn [arr_shape arr_dtype arr_data]. rewrite Hdt.
  assert (Hse : shape_eqb [4%N] [4%N] = true)
    by (apply shape_eqb_eq; reflexivity).
  rewrite Hse. reflexivity.
Qed.

(** X19: [_unsafe_rbg_fold_in] adds to the key, by exclusive or, a
    mask that depends on the data alone.  So folding the same data in
    twice gives the key back, and folding two data in gives the same
    key in either order. *)
Theorem unsafe_rbg_fold_in_xor (kd : list Z) (d1 d2 : ndarray) :
  List.length kd = 4%nat ->
  d1.(arr_shape) = [] -> is_integer_dtype d1.(arr_dtype) = true ->
  d2.(arr_shape) = [] -> is_integer_dtype d2.(arr_dtype) = true ->
  let key := mk_ndarray uint32 [4%N] kd in
  (k <- _unsafe_rbg_fold_in rng key d1 ;; _unsafe_rbg_fold_in rng k d1)
    = Ok key
  /\ (k <- _unsafe_rbg_fold_in rng key d1 ;; _unsafe_rbg_fold_in rng k d2)
     = (k <- _unsafe_rbg_fold_in rng key d2 ;; _unsafe_rbg_fold_in rng k d1)
  /\ exists k, _unsafe_rbg_fold_in rng key d1 = Ok k
               /\ k.(arr_shape) = [4%N] /\ k.(arr_dtype) = uint32
               /\ List.length k.(arr_data) = 4%nat.
Proof.
  intros Hkd Hs1 Hi1 Hs2 Hi2 key. subst key.
  destruct (unsafe_fold_in_mask d1 Hs1 Hi1) as (m1 & Hm1 & F1).
  destruct (unsafe_fold_in_mask d2 Hs2 Hi2) as (m2 & Hm2 & F2).
  assert (L1 : List.length
                 (map (fun p => Z.lxor (fst p) (snd p)) (combine kd m1))
               = 4%nat)
    by (rewrite length_xor_lists; congruence).
  assert (L2 : List.length
                 (map (fun p => Z.lxor (fst p) (snd p)) (combine kd m2))
               = 4%nat)
    by (rewrite length_xor_lists; congruence).
  split; [ | split ].
  - rewrite (F1 kd Hkd). cbn [bind]. rewrite (F1 _ L1).
    rewrite xor_lists_involutive by congruence. reflexivity.
  - rewrite (F1 kd Hkd), (F2 kd Hkd). cbn [bind].
    rewrite (F2 _ L1), (F1 _ L2).
    rewrite (xor_lists_commute kd m1 m2) by congruence. reflexivity.
  - eexists. split; [ apply (F1 kd Hkd) | ].
    cbn [arr_shape arr_dtype arr_data]. repeat split. exact L1.
Qed.

End UnsafeFoldIn.

Lemma unsafe_rbg_fold_in_xor_witness :
  let rng := fun (k : ndarray) (_ : list N) (_ : dtype) =>
               (k, mk_ndarray uint32 [10%N; 4%N]
                     (map Z.of_nat (seq 0 40))) in
  let d := mk_ndarray int32 [] [3] in
  (forall k,
     let bits := snd (rng k [10%N; 4%N] uint32) in
     bits.(arr_shape) = [10%N; 4%N] /\ bits.(arr_dtype) = uint32
     /\ well_formed bits)
  /\ (k <- _unsafe_rbg_fold_in rng (mk_ndarray uint32 [4%N] [1; 2; 3; 4]) d ;;
      _unsafe_rbg_fold_in rng k d)
     = Ok (mk_ndarray uint32 [4%N] [1; 2; 3; 4]).
Proof.
  intros rng d.
  assert (H : forall k,
            let bits := snd (rng k [10%N; 4%N] uint32) in
            bits.(arr_shape) = [10%N; 4%N] /\ bits.(arr_dtype) = uint32
            /\ well_formed bits)
    by (intros k; repeat split).
  split; [ exact H | ].
  exact (proj1 (unsafe_rbg_fold_in_xor rng H [1; 2; 3; 4] d d
                  eq_refl eq_refl eq_refl eq_refl eq_refl)).
Defined.

(** ** Structural lowering rules keep the key dimensions in place *)

Lemma map_add_seq (n k : nat) :
  map (fun i => (n + i)%nat) (seq 0 k) = seq n k.
Proof.
  revert n. induction k as [ | k IH ]; intros n; cbn [seq map].
  - reflexivity.
  - rewrite Nat.add_0_r. f_equal.
    rewrite <- seq_shift, map_map.
    rewrite <- (IH (S n)). apply map_ext. intros i. lia.
Qed.

(** X20: the permutation that [KeyTy.transpose_mlir] applies to the
    base array extends the permutation of the key axes by the identity
    on the trailing key dimensions: it is a permutation of all the
    axes of the base array, it agrees with the given one on the key
    axes, and it leaves every key dimension where it is. *)
Theorem transpose_mlir_keeps_key_dims (key_shape : list N)
  (permutation : list nat) (n : nat) :
  Permutation permutation (seq 0 n) ->
  let perm := transpose_mlir_perm key_shape n permutation in
  Permutation perm (seq 0 (n + List.length key_shape))
  /\ firstn n perm = permutation
  /\ forall i, (i < List.length key_shape)%nat ->
       nth (n + i) perm 0%nat = (n + i)%nat.
Proof.
  intros Hp perm. subst perm. unfold transpose_mlir_perm.
  rewrite map_add_seq.
  pose proof (Permutation_length Hp) as Hl. rewrite length_seq in Hl.
  split; [ | split ].
  - rewrite seq_app. cbn [Nat.add]. apply Permutation_app_tail. exact Hp.
  - rewrite firstn_app, <- Hl, Nat.sub_diag, firstn_all.
    cbn [firstn]. apply app_nil_r.
  - intros i Hi. rewrite app_nth2 by lia. rewrite Hl.
    replace (n + i - n)%nat with i by lia.
    apply seq_nth. exact Hi.
Qed.

Lemma transpose_mlir_keeps_key_dims_witness :
  Permutation [1; 0]%nat (seq 0 2)
  /\ Permutation (transpose_mlir_perm [2%N] 2 [1; 0]%nat) (seq 0 (2 + 1))
  /\ firstn 2 (transpose_mlir_perm [2%N] 2 [1; 0]%nat) = [1; 0]%nat.
Proof.
  assert (Hp : Permutation [1; 0]%nat (seq 0 2)) by apply perm_swap.
  split; [ exact Hp | ].
  pose proof (transpose_mlir_keeps_key_dims [2%N] [1; 0]%nat 2 Hp)
    as (H1 & H2 & _).
  split; [ exact H1 | exact H2 ].
Defined.

(** ** Type errors of the hash and of the generators *)

(** X21: on a two-word key and well-formed counters, [threefry_2x32]
    returns exactly when the key and the counters are both [uint32],
    and raises a type error otherwise. *)
Theorem threefry_2x32_requires_uint32 (ur : bool) (key count : ndarray)
  (k1 k2 : Z) :
  key.(arr_shape) = [2%N] -> key.(arr_data) = [k1; k2] ->
  well_formed count ->
  ((exists out, threefry_2x32 ur key count = Ok out)
   <-> key.(arr_dtype) = uint32 /\ count.(arr_dtype) = uint32)
  /\ (~ (key.(arr_dtype) = uint32 /\ count.(arr_dtype) = uint32) ->
      threefry_2x32 ur key count = Err TypeError).
Proof.
  intros Hs Hk Hwf.
  assert (Hbad : ~ (key.(arr_dtype) = uint32 /\ count.(arr_dtype) = uint32) ->
                 threefry_2x32 ur key count = Err TypeError).
  { intros Hn. unfold threefry_2x32, unpack_keypair. rewrite Hs, Hk.
    cbn [bind].
    destruct (dtype_eqb (arr_dtype key) uint32
              && dtype_eqb (arr_dtype count) uint32) eqn:E;
      [ | reflexivity ].
    apply andb_true_iff in E. rewrite !dtype_eqb_eq in E. contradiction. }
  split; [ | exact Hbad ]. split.
  - intros [out Ho].
    destruct (dtype_eqb (arr_dtype key) uint32
              && dtype_eqb (arr_dtype count) uint32) eqn:E.
    + apply andb_true_iff in E. rewrite !dtype_eqb_eq in E. exact E.
    + rewrite Hbad in Ho; [ discriminate Ho | ].
      intros [H1 H2]. rewrite H1, H2 in E. discriminate E.
  - intros [Hd Hc]. eexists.
    apply (threefry_2x32_eq ur key count k1 k2); [ | exact Hc | exact Hwf ].
    repeat split; assumption.
Qed.

Lemma threefry_2x32_requires_uint32_witness :
  let key := mk_ndarray int32 [2%N] [1; 2] in
  let count := mk_ndarray uint32 [2%N] [0; 1] in
  key.(arr_shape) = [2%N] /\ key.(arr_data) = [1; 2] /\ well_formed count
  /\ threefry_2x32 true key count = Err TypeError.
Proof.
  intros key count.
  assert (Hs : key.(arr_shape) = [2%N]) by reflexivity.
  assert (Hk : key.(arr_data) = [1; 2]) by reflexivity.
  assert (Hw : well_formed count) by reflexivity.
  split; [ exact Hs | ]. split; [ exact Hk | ]. split; [ exact Hw | ].
  apply (proj2 (threefry_2x32_requires_uint32 true key count 1 2 Hs Hk Hw)).
  intros [H _]. discriminate H.
Defined.



(** ** split and fold_in return keys *)

(** X23: the results of [threefry_split] and [threefry_fold_in] on a
    raw key are key data again: the array that [split] returns wraps
    into a key array of shape [(n,)] whose every row is a raw key of
    two 32-bit words, and [fold_in] returns one raw key of two 32-bit
    words that wraps into a scalar key array. *)
Theorem threefry_split_fold_in_return_keys (ur : bool) (key data : ndarray)
  (k1 k2 : Z) (n : N) :
  raw_threefry_key key k1 k2 ->
  data.(arr_shape) = [] ->
  (exists keys wrapped,
     threefry_split ur key n = Ok keys
     /\ random_wrap keys threefry_prng_impl = Ok wrapped
     /\ keys_shape wrapped = [n]
     /\ forall i, (i < N.to_nat n)%nat ->
          exists a b, raw_threefry_key (key_row keys i) a b
                      /\ U32.in_range a /\ U32.in_range b)
  /\ (exists folded wrapped a b,
        threefry_fold_in ur key data = Ok folded
        /\ raw_threefry_key folded a b
        /\ U32.in_range a /\ U32.in_range b
        /\ random_wrap folded threefry_prng_impl = Ok wrapped
        /\ keys_shape wrapped = []).
Proof.
  intros Hkey Hs. split.
  - eexists. eexists.
    split; [ apply (threefry_split_eq ur key k1 k2 n Hkey) | ].
    set (keys := mk_ndarray uint32 [n; 2%N] _).
    assert (Hc : _check_prng_key_data threefry_prng_impl keys = Ok tt).
    { apply check_prng_key_data_spec.
      split; [ discriminate | ].
      split; [ exists [n]; reflexivity | left; reflexivity ]. }
    split.
    { unfold random_wrap, random_wrap_impl, PRNGKeyArray_init.
      rewrite Hc. reflexivity. }
    split; [ reflexivity | ].
    intros i Hi.
    assert (Hl : List.length keys.(arr_data) = (2 * N.to_nat n)%nat).
    { subst keys. cbn [arr_data].
      rewrite length_threefry_2x32_flat, length_iota. lia. }
    exists (nth (2 * i) keys.(arr_data) 0), (nth (2 * i + 1) keys.(arr_data) 0).
    split; [ apply key_row_raw; [ reflexivity | lia ] | ].
    assert (Hr : Forall U32.in_range keys.(arr_data))
      by apply threefry_2x32_flat_in_range.
    split; apply Forall_nth; (exact Hr || lia).
  - eexists. eexists. eexists. eexists.
    split; [ apply (threefry_fold_in_eq ur key data k1 k2 Hkey Hs) | ].
    split; [ repeat split | ].
    split; [ apply lowering_in_range | ].
    split; [ apply lowering_in_range | ].
    split; reflexivity.
Qed.

Lemma threefry_split_fold_in_return_keys_witness :
  let key := mk_ndarray uint32 [2%N] [0; 0] in
  let data := mk_ndarray int32 [] [7] in
  raw_threefry_key key 0 0 /\ data.(arr_shape) = []
  /\ exists keys wrapped,
       threefry_split true key 3 = Ok keys
       /\ random_wrap keys threefry_prng_impl = Ok wrapped
       /\ keys_shape wrapped = [3%N]
       /\ forall i, (i < N.to_nat 3)%nat ->
            exists a b, raw_threefry_key (key_row keys i) a b
                        /\ U32.in_range a /\ U32.in_range b.
Proof.
  intros key data.
  assert (Hk : raw_threefry_key key 0 0) by (repeat split; reflexivity).
  assert (Hs : data.(arr_shape) = []) by reflexivity.
  split; [ exact Hk | ]. split; [ exact Hs | ].
  exact (proj1 (threefry_split_fold_in_return_keys true key data 0 0 3
                  Hk Hs)).
Defined.

(** ** Shapes of keys and of base arrays *)

(** X24: for an implementation with a non-empty key shape, going from
    a shape of keys to the shape of the base array and back is the
    identity, and going from a base shape to the shape of keys and
    back is the identity exactly on the base shapes that end with the
    key shape. *)
Theorem keys_shape_base_shape_round_trip (p : PRNGImpl.t)
  (shape : list N) :
  p.(PRNGImpl.key_shape) <> [] ->
  base_arr_shape_to_keys_shape p (keys_shape_to_base_arr_shape p shape)
    = shape
  /\ (keys_shape_to_base_arr_shape p (base_arr_shape_to_keys_shape p shape)
        = shape
      <-> exists batch, shape = batch ++ p.(PRNGImpl.key_shape)).
Proof.
  intros Hk.
  unfold base_arr_shape_to_keys_shape, keys_shape_to_base_arr_shape.
  split; [ apply slice_drop_last_app; exact Hk | ].
  split.
  - intros E. eexists. symmetry. exact E.
  - intros [batch ->]. rewrite slice_drop_last_app by exact Hk. reflexivity.
Qed.

Lemma keys_shape_base_shape_round_trip_witness :
  rbg_prng_impl.(PRNGImpl.key_shape) <> []
  /\ base_arr_shape_to_keys_shape rbg_prng_impl
       (keys_shape_to_base_arr_shape rbg_prng_impl [5%N; 3%N])
     = [5%N; 3%N].
Proof.
  assert (Hk : rbg_prng_impl.(PRNGImpl.key_shape) <> []) by discriminate.
  split; [ exact Hk | ].
  exact (proj1 (keys_shape_base_shape_round_trip rbg_prng_impl
                  [5%N; 3%N] Hk)).
Defined.
